(** * Todo client: the optimistic-update logic of [src/components/Todo.jsx]

    The React component [TodoApp] keeps four pieces of state ([todos],
    [loading], [searchQuery], [formData]) and three asynchronous handlers
    ([fetchTodos], [handleAddTodo], [handleDelete]).  Each handler runs
    synchronously up to its [await], is suspended while the HTTP request is
    in flight, and is resumed when the request settles.  The embedding below
    makes the suspended handlers (with the variables their closures captured)
    part of the state, and turns every user action and every settling request
    into an event of a transition function [step].

    What the embedding takes from the environment:
    - a user action is handled by the handlers of the latest render, so a
      handler starts with the current state in its closure; what it captured
      stays as it was while it is suspended;
    - [Date.now()] and [new Date()] are readings of a clock, given with the
      event [Submit];
    - a request settles when the event [Settle] says so, fulfilled (with the
      list [res.data.data], which only [fetchTodos] reads) or rejected;
    - strings are over the code points below U+0100, on which [toLowerCase]
      and [trim] are written out in full; the search is also given over
      any code units, with [toLowerCase] as a parameter ([AnyText]), and the
      component's search is shown to be that one at these strings. *)

From Stdlib Require Import ZArith Ascii String Lia.
From stdpp Require Import base list strings pretty.

Local Open Scope Z_scope.

(** ** JavaScript values and strings *)

Module Js.

(** The JSON primitives a field of a task can hold.  Numbers are the
    integral ones; [JUndefined] is an absent field. *)
Inductive JsPrim :=
| JUndefined
| JNull
| JBool (b : bool)
| JNum (n : Z)
| JStr (s : string).

#[global] Instance JsPrim_eq_dec : EqDecision JsPrim.
Proof. solve_decision. Defined.

(** [createdAt] is a [Date] object on optimistic items ([new Date()]) and
    whatever the store sent on the others. *)
Inductive JsDate :=
| DateObject (ms : Z)
| DateJson (v : JsPrim).

Inductive Exception := TypeError.

(** Outcome of evaluating an expression: a value or a thrown exception. *)
Inductive Completion (A : Type) :=
| Normal (a : A)
| Throw (e : Exception).
Arguments Normal {A} a.
Arguments Throw {A} e.

#[global] Instance Completion_ret : MRet Completion := fun A a => Normal a.
#[global] Instance Completion_bind : MBind Completion := fun A B f m =>
  match m with
  | Normal a => f a
  | Throw e => Throw e
  end.

(** Strings are sequences of 8-bit code units, read as the code points
    U+0000 to U+00FF. *)
Definition code (c : ascii) : N := N_of_ascii c.

(** The code points below U+0100 that [toLowerCase] changes: A-Z and
    U+00C0-U+00DE without the multiplication sign U+00D7. *)
Definition is_upper (c : ascii) : bool :=
  ((65 <=? code c) && (code c <=? 90)
   || (192 <=? code c) && (code c <=? 222) && negb (code c =? 215))%N.

Definition lower_char (c : ascii) : ascii :=
  if is_upper c then ascii_of_N (code c + 32) else c.

(** [String.prototype.toLowerCase] on strings whose code points are all
    below U+0100, where it maps character by character.  Beyond them it
    does not (a capital sigma lowers by its place in the word, U+0130 to two
    units): there the method is a parameter, see [AnyText]. *)
Fixpoint toLowerCase (s : string) : string :=
  match s with
  | EmptyString => EmptyString
  | String c s' => String (lower_char c) (toLowerCase s')
  end.

(** White space and line terminators below U+0100: TAB, LF, VT, FF, CR,
    SP and NBSP. *)
Definition is_white (c : ascii) : bool :=
  match code c with
  | 9 | 10 | 11 | 12 | 13 | 32 | 160 => true
  | _ => false
  end%N.

Fixpoint trimStart (s : string) : string :=
  match s with
  | EmptyString => EmptyString
  | String c s' => if is_white c then trimStart s' else s
  end.

Fixpoint trimEnd (s : string) : string :=
  match s with
  | EmptyString => EmptyString
  | String c s' =>
      match trimEnd s' with
      | EmptyString => if is_white c then EmptyString else String c EmptyString
      | r => String c r
      end
  end.

(** [String.prototype.trim] *)
Definition trim (s : string) : string := trimEnd (trimStart s).

(** Does [s] begin with [q]? *)
Fixpoint startsWith (s q : string) {struct q} : bool :=
  match q, s with
  | EmptyString, _ => true
  | String _ _, EmptyString => false
  | String a q', String b s' => bool_decide (a = b) && startsWith s' q'
  end.

(** [String.prototype.includes]: does [q] occur in [s] at some position? *)
Fixpoint includes (s q : string) : bool :=
  startsWith s q
  || match s with
     | EmptyString => false
     | String _ s' => includes s' q
     end.

(** [v.toLowerCase()] for a field value [v]: only strings have the method. *)
Definition toLowerCase_of (v : JsPrim) : Completion string :=
  match v with
  | JStr s => Normal (toLowerCase s)
  | _ => Throw TypeError
  end.

(** [Number.prototype.toString] on an integer clock reading. *)
Definition toString (n : Z) : string := pretty n.

(** [Array.prototype.filter] with a callback that may throw: the callback
    is applied from left to right and the first exception aborts. *)
Fixpoint filterC {A} (p : A -> Completion bool) (l : list A)
  : Completion (list A) :=
  match l with
  | [] => Normal []
  | x :: l' =>
      b ← p x;
      r ← filterC p l';
      Normal (if b : bool then x :: r else r)
  end.

End Js.
Export Js.

(** ** The component *)

Record Todo := mkTodo {
  _id : JsPrim;
  title : JsPrim;
  description : JsPrim;
  createdAt : JsDate;
  sync : JsPrim
}.

Record FormData := mkForm {
  form_title : string;
  form_description : string
}.

(** Requests sent through [API]. *)
Inductive Request :=
| GET_todos
| POST_createTodo (body : FormData)
| DELETE_deleteTodo (id : JsPrim).

(** A handler suspended at its [await], with what its closure holds. *)
Inductive Suspended :=
| InFetchTodos
| InHandleAddTodo (tempId : string) (todos0 : list Todo)
| InHandleDelete.

Record State := mkState {
  todos : list Todo;
  loading : bool;
  searchQuery : string;
  formData : FormData;
  awaiting : list Suspended;
  sent : list Request;
  alerts : list string;
  console : list string
}.

(** How a request settles; [data] is [res.data.data]. *)
Inductive Outcome :=
| Fulfilled (data : list Todo)
| Rejected.

Inductive Event :=
| Mount
| ChangeTitle (v : string)
| ChangeDescription (v : string)
| ChangeSearch (v : string)
| Submit (now date : Z)
| ClickDelete (id : JsPrim)
| Settle (k : nat) (r : Outcome).

Definition init : State :=
  {| todos := []; loading := true; searchQuery := "";
     formData := mkForm "" "";
     awaiting := []; sent := []; alerts := []; console := [] |}.

Definition setTodos (l : list Todo) (s : State) : State :=
  mkState l (loading s) (searchQuery s) (formData s)
          (awaiting s) (sent s) (alerts s) (console s).

Definition setLoading (b : bool) (s : State) : State :=
  mkState (todos s) b (searchQuery s) (formData s)
          (awaiting s) (sent s) (alerts s) (console s).

Definition setSearchQuery (q : string) (s : State) : State :=
  mkState (todos s) (loading s) q (formData s)
          (awaiting s) (sent s) (alerts s) (console s).

Definition setFormData (f : FormData) (s : State) : State :=
  mkState (todos s) (loading s) (searchQuery s) f
          (awaiting s) (sent s) (alerts s) (console s).

Definition setAwaiting (a : list Suspended) (s : State) : State :=
  mkState (todos s) (loading s) (searchQuery s) (formData s)
          a (sent s) (alerts s) (console s).

(** Send [r] and suspend the running handler as [c]. *)
Definition await (r : Request) (c : Suspended) (s : State) : State :=
  mkState (todos s) (loading s) (searchQuery s) (formData s)
          (awaiting s ++ [c]) (sent s ++ [r]) (alerts s) (console s).

Definition alert (msg : string) (s : State) : State :=
  mkState (todos s) (loading s) (searchQuery s) (formData s)
          (awaiting s) (sent s) (alerts s ++ [msg]) (console s).

Definition console_error (msg : string) (s : State) : State :=
  mkState (todos s) (loading s) (searchQuery s) (formData s)
          (awaiting s) (sent s) (alerts s) (console s ++ [msg]).

(** [fetchTodos], up to [await API.get('/todos')]. *)
Definition fetchTodos (s : State) : State :=
  await GET_todos InFetchTodos s.

(** [fetchTodos], from the [await] on: [try] / [catch] / [finally]. *)
Definition fetchTodos_resume (r : Outcome) (s : State) : State :=
  setLoading false
    match r with
    | Fulfilled data => setTodos data s
    | Rejected => console_error "Fetch error:" s
    end.

(** The callback of the [useMemo] that computes [filteredTodos]. *)
Definition matches (q : string) (t : Todo) : Completion bool :=
  a ← toLowerCase_of (title t);
  if includes a (toLowerCase q) then Normal true
  else
    b ← toLowerCase_of (description t);
    Normal (includes b (toLowerCase q)).

Definition filteredTodos (todos : list Todo) (searchQuery : string)
  : Completion (list Todo) :=
  filterC (matches searchQuery) todos.

Definition tempId (now : Z) : string := toString now.

Definition newTodo (f : FormData) (now date : Z) : Todo :=
  {| _id := JStr (tempId now);
     title := JStr (form_title f);
     description := JStr (form_description f);
     createdAt := DateObject date;
     sync := JBool false |}.

(** [t._id !== id] *)
Definition other_id (id : JsPrim) (t : Todo) : Prop := _id t ≠ id.

#[global] Instance other_id_dec id t : Decision (other_id id t).
Proof. unfold other_id. apply _. Defined.

(** [handleAddTodo], up to [await API.post('/createTodo', formData)].  [now]
    is what [Date.now()] reads and [date] what [new Date()] reads. *)
Definition handleAddTodo (now date : Z) (s : State) : State :=
  if decide (trim (form_title (formData s)) = "") then s
  else
    let s1 := setTodos (newTodo (formData s) now date :: todos s) s in
    let s2 := setFormData (mkForm "" "") s1 in
    await (POST_createTodo (formData s))
          (InHandleAddTodo (tempId now) (todos s)) s2.

(** [handleAddTodo], from the [await] on.  [tempId] and [todos0] are the
    variables [tempId] and [todos] of the suspended call. *)
Definition handleAddTodo_resume (tempId : string) (todos0 : list Todo)
    (r : Outcome) (s : State) : State :=
  match r with
  | Fulfilled _ => fetchTodos s
  | Rejected =>
      alert "Failed to save todo."
        (setTodos (filter (other_id (JStr tempId)) todos0) s)
  end.

(** [handleDelete], up to [await API.delete(...)]. *)
Definition handleDelete (id : JsPrim) (s : State) : State :=
  await (DELETE_deleteTodo id) InHandleDelete
    (setTodos (filter (other_id id) (todos s)) s).

(** [handleDelete], from the [await] on. *)
Definition handleDelete_resume (r : Outcome) (s : State) : State :=
  match r with
  | Fulfilled _ => s
  | Rejected => fetchTodos s
  end.

Definition resume (c : Suspended) (r : Outcome) (s : State) : State :=
  match c with
  | InFetchTodos => fetchTodos_resume r s
  | InHandleAddTodo tempId todos0 => handleAddTodo_resume tempId todos0 r s
  | InHandleDelete => handleDelete_resume r s
  end.

(** One turn of the event loop.  [Settle k r] settles the request of the
    [k]-th suspended handler; with no such handler nothing happens. *)
Definition step (e : Event) (s : State) : State :=
  match e with
  | Mount => fetchTodos s
  | ChangeTitle v =>
      setFormData (mkForm v (form_description (formData s))) s
  | ChangeDescription v =>
      setFormData (mkForm (form_title (formData s)) v) s
  | ChangeSearch v => setSearchQuery v s
  | Submit now date => handleAddTodo now date s
  | ClickDelete id => handleDelete id s
  | Settle k r =>
      match awaiting s !! k with
      | Some c => resume c r (setAwaiting (delete k (awaiting s)) s)
      | None => s
      end
  end.

Definition run (es : list Event) (s : State) : State :=
  foldl (fun s e => step e s) s es.

(** *** What is rendered *)

(** The list section of the page: the skeleton while loading, else one card
    per task of the filtered view (keyed by [todo._id], with a delete
    button bound to [todo._id]), else the empty state. *)
Inductive ListSection :=
| Skeleton
| Cards (shown : list Todo)
| EmptyState.

Record View := mkView {
  header_count : nat;
  search_value : string;
  title_value : string;
  description_value : string;
  list_section : ListSection
}.

(** The body of [TodoApp] from the [useMemo] on: the filter is computed on
    every render, whatever [loading] is; the header shows [todos.length]. *)
Definition render (s : State) : Completion View :=
  shown ← filteredTodos (todos s) (searchQuery s);
  Normal (mkView (length (todos s)) (searchQuery s)
            (form_title (formData s)) (form_description (formData s))
            (if loading s then Skeleton
             else if bool_decide (0 < length shown)%nat then Cards shown
             else EmptyState)).

(** *** The search over any alphabet

    The same [useMemo] callback, with strings as lists of code units of any
    kind (the 16-bit units of the engine among them) and with
    [String.prototype.toLowerCase], which is not part of the repository,
    taken as a parameter.  A field is [Some s] when it is the string [s] and
    [None] when it is anything else. *)

Module AnyText.
Section Filter.

Context {C : Type} `{!EqDecision C}.
Variable toLowerCase : list C -> list C.
Context {T : Type}.
Variables title description : T -> option (list C).

Fixpoint startsWith (s q : list C) {struct q} : bool :=
  match q, s with
  | [], _ => true
  | _ :: _, [] => false
  | a :: q', b :: s' => bool_decide (a = b) && startsWith s' q'
  end.

(** [String.prototype.includes] *)
Fixpoint includes (s q : list C) : bool :=
  startsWith s q
  || match s with
     | [] => false
     | _ :: s' => includes s' q
     end.

Definition toLowerCase_of (v : option (list C)) : Completion (list C) :=
  match v with
  | Some s => Normal (toLowerCase s)
  | None => Throw TypeError
  end.

Definition matches (q : list C) (t : T) : Completion bool :=
  a ← toLowerCase_of (title t);
  if includes a (toLowerCase q) then Normal true
  else
    b ← toLowerCase_of (description t);
    Normal (includes b (toLowerCase q)).

Definition filteredTodos (todos : list T) (searchQuery : list C)
  : Completion (list T) :=
  filterC (matches searchQuery) todos.

(** The field is a string whose lower-cased form holds the lower-cased
    query somewhere. *)
Definition lowered_contains (q : list C) (v : option (list C)) : Prop :=
  exists s pre post,
    v = Some s /\ toLowerCase s = pre ++ toLowerCase q ++ post.

Definition selected (q : list C) (t : T) : Prop :=
  lowered_contains q (title t) \/ lowered_contains q (description t).

(** [q] occurs in [s] when case is ignored: a piece of [s] and [q] are the
    same string once both are lower-cased. *)
Definition ci_substring (q s : list C) : Prop :=
  exists pre mid post,
    s = pre ++ mid ++ post /\ toLowerCase mid = toLowerCase q.

Definition ci_contains (q : list C) (v : option (list C)) : Prop :=
  exists s, v = Some s /\ ci_substring q s.

Definition ci_selected (q : list C) (t : T) : Prop :=
  ci_contains q (title t) \/ ci_contains q (description t).

Definition has_text (t : T) : Prop :=
  is_Some (title t) /\ is_Some (description t).

End Filter.
End AnyText.

(** The field of a task of the component as text over the 8-bit units. *)
Definition text_of (v : JsPrim) : option (list ascii) :=
  match v with
  | JStr s => Some (list_ascii_of_string s)
  | _ => None
  end.

(** [toLowerCase] of the component on lists of units. *)
Definition toLowerCase_units (l : list ascii) : list ascii :=
  list_ascii_of_string (toLowerCase (string_of_list_ascii l)).

(** What React makes of [key={todo._id}]: no key for [undefined], else the
    value turned into a string. *)
Definition react_key (id : JsPrim) : option string :=
  match id with
  | JUndefined => None
  | JNull => Some "null"
  | JBool true => Some "true"
  | JBool false => Some "false"
  | JNum n => Some (toString n)
  | JStr s => Some s
  end.

(** ** Vocabulary of the specification *)

(** The 256 code units. *)
Definition all_codes : list ascii := ascii_of_nat <$> seq 0 256.

(** The ids held by a collection, in order. *)
Definition ids (l : list Todo) : list JsPrim := _id <$> l.

(** A title the form rejects: nothing but white space (possibly nothing). *)
Fixpoint whitespace_only (s : string) : bool :=
  match s with
  | EmptyString => true
  | String c s' => is_white c && whitespace_only s'
  end.

(** [b] is [a], or one is the capital of the other. *)
Definition same_letter (a b : ascii) : bool :=
  bool_decide (a = b)
  || is_upper a && (code b =? code a + 32)%N
  || is_upper b && (code a =? code b + 32)%N.

(** Equality of strings up to the case of their letters. *)
Fixpoint ci_eq (s1 s2 : string) : bool :=
  match s1, s2 with
  | EmptyString, EmptyString => true
  | String a s1', String b s2' => same_letter a b && ci_eq s1' s2'
  | _, _ => false
  end.

(** [q] occurs in [s] when case is ignored. *)
Definition ci_substring (q s : string) : Prop :=
  exists pre mid post, s = pre +:+ mid +:+ post /\ ci_eq mid q = true.

Definition ci_contains (q : string) (v : JsPrim) : Prop :=
  exists s, v = JStr s /\ ci_substring q s.

(** The tasks a search for [q] is meant to show. *)
Definition selected (q : string) (t : Todo) : Prop :=
  ci_contains q (title t) \/ ci_contains q (description t).

Definition is_string (v : JsPrim) : Prop := exists s, v = JStr s.

(** A task as the data model has it: [title] and [description] are text. *)
Definition well_typed (t : Todo) : Prop :=
  is_string (title t) /\ is_string (description t).

#[global] Instance is_string_dec v : Decision (is_string v).
Proof.
  destruct v; [right | right | right | right | left; eexists; reflexivity];
    intros [s' Hs]; discriminate Hs.
Defined.

#[global] Instance well_typed_dec t : Decision (well_typed t).
Proof. unfold well_typed. apply _. Defined.

(** What the environment has to respect for ids to stay unique: a list
    response carries no id twice, and a form is not submitted at a clock
    reading whose decimal string is already an id of the collection. *)
Definition admissible (s : State) (e : Event) : Prop :=
  match e with
  | Submit now _ => JStr (tempId now) ∉ ids (todos s)
  | Settle k (Fulfilled data) =>
      awaiting s !! k = Some InFetchTodos -> NoDup (ids data)
  | _ => True
  end.

Fixpoint admissible_run (s : State) (es : list Event) : Prop :=
  match es with
  | [] => True
  | e :: es' => admissible s e /\ admissible_run (step e s) es'
  end.

(** Ids are distinct in the collection and in the snapshots that the
    suspended calls of [handleAddTodo] hold. *)
Definition distinct_ids (s : State) : Prop :=
  NoDup (ids (todos s)) /\
  forall tempId todos0,
    InHandleAddTodo tempId todos0 ∈ awaiting s -> NoDup (ids todos0).

(** A character of a decimal numeral: a digit or the sign. *)
Definition numeral_char (c : ascii) : bool :=
  ((48 <=? code c) && (code c <=? 57))%N || bool_decide (c = "-"%char).

Fixpoint numeral_chars (s : string) : bool :=
  match s with
  | EmptyString => true
  | String c s' => numeral_char c && numeral_chars s'
  end.

(** An id that no clock reading prints: not a string, or a string with a
    character that is neither a digit nor the sign. *)
Definition store_id (id : JsPrim) : bool :=
  match id with
  | JStr s => negb (numeral_chars s)
  | _ => true
  end.

(** A store and a clock that behave: the clock reads more at each
    submission than at the one before ([clock] is the last reading), and a
    list response carries no id twice and no id a clock reading prints. *)
Fixpoint well_behaved (clock : Z) (s : State) (es : list Event) : Prop :=
  match es with
  | [] => True
  | e :: es' =>
      match e with
      | Submit now _ => clock < now /\ well_behaved now (step e s) es'
      | Settle k (Fulfilled data) =>
          (awaiting s !! k = Some InFetchTodos ->
           NoDup (ids data) /\ Forall (fun id => store_id id = true) (ids data))
          /\ well_behaved clock (step e s) es'
      | _ => well_behaved clock (step e s) es'
      end
  end.

(** The store lists only tasks with text in [title] and [description]. *)
Fixpoint lists_well_typed (s : State) (es : list Event) : Prop :=
  match es with
  | [] => True
  | e :: es' =>
      match e with
      | Settle k (Fulfilled data) =>
          awaiting s !! k = Some InFetchTodos -> Forall well_typed data
      | _ => True
      end /\ lists_well_typed (step e s) es'
  end.

(** Every task satisfies [P], in the collection and in the snapshots that
    the suspended calls of [handleAddTodo] hold. *)
Definition each (P : Todo -> Prop) (s : State) : Prop :=
  Forall P (todos s) /\
  forall tempId todos0,
    InHandleAddTodo tempId todos0 ∈ awaiting s -> Forall P todos0.

(** The tasks an event can bring in satisfy [P]: the one a submission
    makes, those a list response carries. *)
Definition brings (P : Todo -> Prop) (s : State) (e : Event) : Prop :=
  match e with
  | Submit now date => P (newTodo (formData s) now date)
  | Settle k (Fulfilled data) =>
      awaiting s !! k = Some InFetchTodos -> Forall P data
  | _ => True
  end.

(** An id of the store, or what the clock printed at a reading up to
    [clock]. *)
Definition id_of_store_or_clock (clock : Z) (t : Todo) : Prop :=
  store_id (_id t) = true \/ exists n, n <= clock /\ _id t = JStr (tempId n).

(** Counting the entries of a list that pass a test. *)
Fixpoint count {A} (f : A -> bool) (l : list A) : nat :=
  match l with
  | [] => 0%nat
  | x :: l' => ((if f x then 1 else 0) + count f l')%nat
  end.

Definition is_post (r : Request) : bool :=
  match r with
  | POST_createTodo _ => true
  | _ => false
  end.

Definition is_create (c : Suspended) : bool :=
  match c with
  | InHandleAddTodo _ _ => true
  | _ => false
  end.

(** The capital letters below U+0100, as ranges of code points: A to Z,
    A-grave to O-diaeresis, O-stroke to Thorn.  The small form of each is 32
    above. *)
Definition capital_ranges : list (N * N) :=
  [(65, 90); (192, 214); (216, 222)]%N.

Definition capital_letter (c : ascii) : bool :=
  existsb (fun r => (fst r <=? code c) && (code c <=? snd r))%N capital_ranges.

Definition small_form_of (a b : ascii) : bool :=
  capital_letter a && (code b =? code a + 32)%N.

(** The same character, or the capital and the small form of one letter. *)
Definition same_up_to_case (a b : ascii) : bool :=
  bool_decide (a = b) || small_form_of a b || small_form_of b a.

Fixpoint case_blind_eq (s1 s2 : string) : bool :=
  match s1, s2 with
  | EmptyString, EmptyString => true
  | String a s1', String b s2' => same_up_to_case a b && case_blind_eq s1' s2'
  | _, _ => false
  end.

(** [q] occurs in [s] up to the case of the letters. *)
Definition case_blind_substring (q s : string) : Prop :=
  exists pre mid post,
    s = pre +:+ mid +:+ post /\ case_blind_eq mid q = true.

Definition case_blind_contains (q : string) (v : JsPrim) : Prop :=
  exists s, v = JStr s /\ case_blind_substring q s.

Definition case_blind_selected (q : string) (t : Todo) : Prop :=
  case_blind_contains q (title t) \/ case_blind_contains q (description t).

(** Text in 16-bit code units: capital alpha, capital sigma, small alpha,
    small sigma and final small sigma. *)
Module Greek.
Definition Alpha : N := 913.
Definition Sigma : N := 931.
Definition alpha : N := 945.
Definition sigma : N := 963.
Definition final_sigma : N := 962.
(** A task as its title and its description. *)
Definition task : Type := list N * list N.
Definition title (t : task) : option (list N) := Some (fst t).
Definition description (t : task) : option (list N) := Some (snd t).
(** What [toLowerCase] does to the two strings used below: a capital
    sigma that ends a word becomes the final small sigma, a capital sigma on
    its own the small sigma. *)
Definition lowers_sigma (toLowerCase : list N -> list N) : Prop :=
  toLowerCase [Alpha; Sigma] = [alpha; final_sigma] /\
  toLowerCase [Sigma] = [sigma].
End Greek.

(** The store lists only tasks that satisfy [P]. *)
Fixpoint lists_each (P : Todo -> Prop) (s : State) (es : list Event) : Prop :=
  match es with
  | [] => True
  | e :: es' =>
      match e with
      | Settle k (Fulfilled data) =>
          awaiting s !! k = Some InFetchTodos -> Forall P data
      | _ => True
      end /\ lists_each P (step e s) es'
  end.

(** The keys of the cards for the tasks [l]. *)
Definition keys (l : list Todo) : list (option string) :=
  (fun t => react_key (_id t)) <$> l.

(** A request to create never carries a blank title. *)
Definition sound_request (r : Request) : Prop :=
  match r with
  | POST_createTodo body => trim (form_title body) <> ""
  | _ => True
  end.

(** Sample data. *)
Module Sample.
Definition a : Todo :=
  mkTodo (JStr "a") (JStr "Alpha") (JStr "first")
         (DateJson (JStr "2024-01-01T00:00:00Z")) JUndefined.
Definition b : Todo :=
  mkTodo (JStr "b") (JStr "Beta") (JStr "second")
         (DateJson (JStr "2024-01-02T00:00:00Z")) JUndefined.
(** An item the store returned without a description. *)
Definition bare : Todo :=
  mkTodo (JStr "c") (JStr "Gamma") JUndefined
         (DateJson (JStr "2024-01-03T00:00:00Z")) JUndefined.
(** The store's copy of the task created by [create("Buy milk", "2%")]. *)
Definition s1 : Todo :=
  mkTodo (JStr "s1") (JStr "Buy milk") (JStr "2%")
         (DateJson (JStr "2024-01-04T00:00:00Z")) JUndefined.
(** The component after its first load returned [a] and [b]. *)
Definition ready : State := run [Mount; Settle 0 (Fulfilled [a; b])] init.
(** A clock reading, and the submission of the form filled with "X", "Y". *)
Definition clock : Z := 1700000000000.
Definition create_XY : list Event :=
  [ChangeTitle "X"; ChangeDescription "Y"; Submit clock clock].
Definition tmp : Todo := newTodo (mkForm "X" "Y") clock clock.
(** An item whose id in the store is the decimal string of [clock]. *)
Definition clash : Todo :=
  mkTodo (JStr "1700000000000") (JStr "Old") (JStr "")
         (DateJson (JStr "2023-11-14T22:13:20Z")) JUndefined.
End Sample.

(** ** Strings *)

Section Strings.

Lemma append_nil_l (s : string) : "" +:+ s = s.
Proof. reflexivity. Qed.

Lemma append_cons (c : ascii) (s1 s2 : string) :
  String c s1 +:+ s2 = String c (s1 +:+ s2).
Proof. reflexivity. Qed.

Lemma append_nil_r (s : string) : s +:+ "" = s.
Proof. induction s as [|c s IH]; [reflexivity|]. rewrite append_cons, IH. reflexivity. Qed.

Lemma append_assoc (s1 s2 s3 : string) :
  (s1 +:+ s2) +:+ s3 = s1 +:+ s2 +:+ s3.
Proof.
  induction s1 as [|c s1 IH]; [reflexivity|].
  rewrite !append_cons, IH. reflexivity.
Qed.

Lemma length_append (s1 s2 : string) :
  String.length (s1 +:+ s2) = (String.length s1 + String.length s2)%nat.
Proof.
  induction s1 as [|c s1 IH]; [reflexivity|].
  rewrite append_cons. simpl. rewrite IH. reflexivity.
Qed.

Lemma length_toLowerCase (s : string) :
  String.length (toLowerCase s) = String.length s.
Proof. induction s as [|c s IH]; simpl; congruence. Qed.

Lemma toLowerCase_append (s1 s2 : string) :
  toLowerCase (s1 +:+ s2) = toLowerCase s1 +:+ toLowerCase s2.
Proof.
  induction s1 as [|c s1 IH]; [reflexivity|].
  rewrite append_cons. simpl. rewrite IH. reflexivity.
Qed.

(** A split of the lowered string comes from a split of the string. *)
Lemma toLowerCase_split (s u v : string) :
  toLowerCase s = u +:+ v ->
  exists u' v', s = u' +:+ v' /\ toLowerCase u' = u /\ toLowerCase v' = v.
Proof.
  revert s. induction u as [|c u IH]; intros s H.
  - exists "", s. auto.
  - destruct s as [|d s]; [discriminate H|].
    rewrite append_cons in H. simpl in H. injection H as Hc Hs.
    destruct (IH _ Hs) as (u' & v' & -> & <- & <-).
    exists (String d u'), v'. simpl. rewrite Hc. auto.
Qed.

Lemma startsWith_spec (s q : string) :
  startsWith s q = true <-> exists post, s = q +:+ post.
Proof.
  revert s. induction q as [|c q IH]; intros s; simpl.
  - split; [intros _; exists s; reflexivity | intros _; reflexivity].
  - destruct s as [|d s].
    + split; [discriminate | intros [post H]; discriminate H].
    + rewrite andb_true_iff, bool_decide_eq_true, IH.
      split.
      * intros [-> [post ->]]. exists post. reflexivity.
      * intros [post H]. rewrite append_cons in H.
        injection H as -> ->. split; [reflexivity | exists post; reflexivity].
Qed.

Lemma includes_spec (s q : string) :
  includes s q = true <-> exists pre post, s = pre +:+ q +:+ post.
Proof.
  induction s as [|c s IH]; simpl; rewrite orb_true_iff, startsWith_spec.
  - split.
    + intros [[post H]|H]; [|discriminate H]. exists "", post. exact H.
    + intros (pre & post & H). left.
      destruct pre as [|d pre]; [exists post; exact H | discriminate H].
  - rewrite IH. split.
    + intros [[post H]|(pre & post & H)].
      * exists "", post. exact H.
      * exists (String c pre), post. rewrite append_cons. congruence.
    + intros (pre & post & H). destruct pre as [|d pre].
      * left. exists post. exact H.
      * right. exists pre, post. rewrite append_cons in H. congruence.
Qed.

Lemma includes_length (s q : string) :
  includes s q = true -> (String.length q <= String.length s)%nat.
Proof.
  rewrite includes_spec. intros (pre & post & ->).
  rewrite !length_append. lia.
Qed.

Lemma all_codes_complete (c : ascii) : In c all_codes.
Proof.
  unfold all_codes. apply in_map_iff. exists (nat_of_ascii c). split.
  - apply ascii_nat_embedding.
  - apply in_seq. pose proof (nat_ascii_bounded c). lia.
Qed.

Lemma same_letter_lower (a b : ascii) :
  same_letter a b = bool_decide (lower_char a = lower_char b).
Proof.
  assert (forallb (fun a => forallb (fun b =>
            Bool.eqb (same_letter a b)
                     (bool_decide (lower_char a = lower_char b)))
            all_codes) all_codes = true) as H
    by (vm_compute; reflexivity).
  rewrite forallb_forall in H. specialize (H a (all_codes_complete a)).
  rewrite forallb_forall in H. specialize (H b (all_codes_complete b)).
  apply Bool.eqb_prop in H. exact H.
Qed.

Lemma ci_eq_lower (s1 s2 : string) :
  ci_eq s1 s2 = true <-> toLowerCase s1 = toLowerCase s2.
Proof.
  revert s2. induction s1 as [|a s1 IH]; intros [|b s2]; simpl;
    try (split; [reflexivity || discriminate | reflexivity || discriminate]).
  rewrite andb_true_iff, IH, same_letter_lower, bool_decide_eq_true.
  split; [intros [-> ->]; reflexivity | intros H; injection H; auto].
Qed.

(** What the component computes is the case-blind occurrence. *)
Lemma includes_lower_spec (s q : string) :
  includes (toLowerCase s) (toLowerCase q) = true <-> ci_substring q s.
Proof.
  rewrite includes_spec. unfold ci_substring. split.
  - intros (pre & post & H).
    apply toLowerCase_split in H as (pre' & r & -> & _ & H).
    apply toLowerCase_split in H as (mid & post' & -> & H & _).
    exists pre', mid, post'. split; [reflexivity|]. apply ci_eq_lower, H.
  - intros (pre & mid & post & -> & H). apply ci_eq_lower in H.
    exists (toLowerCase pre), (toLowerCase post).
    rewrite !toLowerCase_append, H. reflexivity.
Qed.

Lemma trimStart_empty (s : string) :
  trimStart s = "" <-> whitespace_only s = true.
Proof.
  induction s as [|c s IH]; simpl; [tauto|].
  destruct (is_white c); simpl; [exact IH|].
  split; discriminate.
Qed.

Lemma trimEnd_empty (s : string) :
  trimEnd s = "" <-> whitespace_only s = true.
Proof.
  induction s as [|c s IH]; simpl; [tauto|].
  destruct (trimEnd s) as [|d r].
  - destruct (is_white c); simpl; [tauto|]. split; discriminate.
  - rewrite andb_true_iff. split; [discriminate|].
    intros [_ H]. apply IH in H. discriminate H.
Qed.

Lemma whitespace_only_trimStart (s : string) :
  whitespace_only (trimStart s) = true -> whitespace_only s = true.
Proof.
  induction s as [|c s IH]; simpl; [tauto|].
  destruct (is_white c) eqn:Hc; simpl; [exact IH|].
  rewrite Hc. discriminate.
Qed.

(** [!title.trim()] holds exactly for the titles made of white space. *)
Lemma trim_empty (s : string) :
  trim s = "" <-> whitespace_only s = true.
Proof.
  unfold trim. rewrite trimEnd_empty. split.
  - apply whitespace_only_trimStart.
  - intros H. apply trimStart_empty in H. rewrite H. reflexivity.
Qed.

End Strings.

(** ** The filtered view *)

Section View.

Lemma filterC_cons {A} (p : A -> Completion bool) (x : A) (l : list A) :
  filterC p (x :: l) =
  match p x with
  | Normal b =>
      match filterC p l with
      | Normal r => Normal (if b then x :: r else r)
      | Throw e => Throw e
      end
  | Throw e => Throw e
  end.
Proof. reflexivity. Qed.

(** [filter] is idempotent whatever the callback, as long as the first
    pass does not throw. *)
Lemma filterC_idempotent {A} (p : A -> Completion bool) (l r : list A) :
  filterC p l = Normal r -> filterC p r = Normal r.
Proof.
  revert r. induction l as [|x l IH]; intros r H.
  - injection H as <-. reflexivity.
  - rewrite filterC_cons in H.
    destruct (p x) as [b|e] eqn:Hx; [|discriminate H].
    destruct (filterC p l) as [r'|e] eqn:Hl; [|discriminate H].
    injection H as <-. specialize (IH r' eq_refl).
    destruct b; [|exact IH].
    rewrite filterC_cons, Hx, IH. reflexivity.
Qed.

Lemma matches_unfold (q : string) (t : Todo) :
  matches q t =
  match title t with
  | JStr a =>
      if includes (toLowerCase a) (toLowerCase q) then Normal true
      else match description t with
           | JStr b => Normal (includes (toLowerCase b) (toLowerCase q))
           | _ => Throw TypeError
           end
  | _ => Throw TypeError
  end.
Proof.
  unfold matches. destruct (title t); try reflexivity. simpl.
  destruct (includes _ _); [reflexivity|].
  destruct (description t); reflexivity.
Qed.

(** When exactly the callback throws: the description is only looked at
    when the title does not match. *)
Lemma matches_throws (q : string) (t : Todo) :
  matches q t = Throw TypeError <->
  ~ is_string (title t) \/
  (exists a, title t = JStr a /\
             includes (toLowerCase a) (toLowerCase q) = false /\
             ~ is_string (description t)).
Proof.
  rewrite matches_unfold. unfold is_string.
  destruct (title t) as [| |b|n|a];
    try (split; [intros _; left; intros [s Hs]; discriminate Hs | reflexivity]).
  destruct (includes (toLowerCase a) (toLowerCase q)) eqn:Hinc.
  - split; [discriminate|].
    intros [H|(a' & [= <-] & H & _)]; [destruct H; eauto | congruence].
  - destruct (description t) as [| |b|n|d];
      try (split; [intros _; right; exists a; repeat split; auto;
                   intros [s Hs]; discriminate Hs | reflexivity]).
    split; [discriminate|].
    intros [H|(a' & _ & _ & H)]; destruct H; eauto.
Qed.

Lemma ci_contains_includes (q : string) (s : string) :
  ci_contains q (JStr s) <->
  includes (toLowerCase s) (toLowerCase q) = true.
Proof.
  rewrite includes_lower_spec. unfold ci_contains. split.
  - intros (s' & [= <-] & H). exact H.
  - intros H. exists s. auto.
Qed.

#[global] Instance ci_contains_dec q v : Decision (ci_contains q v).
Proof.
  destruct v as [| |b|n|s];
    try (right; intros (s' & Hs & _); discriminate Hs).
  destruct (includes (toLowerCase s) (toLowerCase q)) eqn:H.
  - left. apply ci_contains_includes, H.
  - right. rewrite ci_contains_includes, H. discriminate.
Defined.

#[global] Instance selected_dec q t : Decision (selected q t).
Proof. unfold selected. apply _. Defined.

(** Whenever the callback returns, it returns what the search means. *)
Lemma matches_sound (q : string) (t : Todo) (b : bool) :
  matches q t = Normal b -> b = bool_decide (selected q t).
Proof.
  rewrite matches_unfold.
  destruct (title t) as [| | | |a] eqn:Ha; try discriminate.
  assert (selected q t <->
          includes (toLowerCase a) (toLowerCase q) = true \/
          ci_contains q (description t)) as Hsel.
  { unfold selected. rewrite Ha, ci_contains_includes. reflexivity. }
  destruct (includes (toLowerCase a) (toLowerCase q)).
  - intros [= <-]. symmetry. apply bool_decide_eq_true. tauto.
  - destruct (description t) as [| | | |d] eqn:Hd; try discriminate.
    rewrite ci_contains_includes in Hsel. intros [= <-].
    destruct (includes (toLowerCase d) (toLowerCase q)); symmetry;
      (apply bool_decide_eq_true || apply bool_decide_eq_false);
      rewrite Hsel; intuition discriminate.
Qed.

Lemma matches_well_typed (q : string) (t : Todo) :
  well_typed t -> matches q t = Normal (bool_decide (selected q t)).
Proof.
  intros [[a Ha] [b Hb]].
  destruct (matches q t) as [r|e] eqn:Hm.
  - f_equal. apply matches_sound, Hm.
  - rewrite matches_unfold, Ha, Hb in Hm.
    destruct (includes _ _); discriminate Hm.
Qed.

Lemma filter_cons_bool_decide {A} (P : A -> Prop) `{!forall x, Decision (P x)}
    (x : A) (l : list A) :
  filter P (x :: l) = if bool_decide (P x) then x :: filter P l else filter P l.
Proof.
  destruct (decide (P x)) as [Hx|Hx].
  - rewrite (bool_decide_eq_true_2 _ Hx). apply filter_cons_True, Hx.
  - rewrite (bool_decide_eq_false_2 _ Hx). apply filter_cons_False, Hx.
Qed.

(** Whenever the view is computed, it is the selection, in order. *)
Lemma filteredTodos_sound (l r : list Todo) (q : string) :
  filteredTodos l q = Normal r -> r = filter (selected q) l.
Proof.
  unfold filteredTodos. revert r. induction l as [|t l IH]; intros r H.
  - injection H as <-. reflexivity.
  - rewrite filterC_cons in H.
    destruct (matches q t) as [b|e] eqn:Hm; [|discriminate H].
    destruct (filterC (matches q) l) as [r'|e]; [|discriminate H].
    injection H as <-. rewrite filter_cons_bool_decide.
    rewrite <- (matches_sound _ _ _ Hm), <- (IH r' eq_refl). reflexivity.
Qed.

Lemma filteredTodos_well_typed (l : list Todo) (q : string) :
  Forall well_typed l ->
  filteredTodos l q = Normal (filter (selected q) l).
Proof.
  unfold filteredTodos. induction 1 as [|t l Ht _ IH]; [reflexivity|].
  rewrite filterC_cons, (matches_well_typed q t Ht), IH.
  rewrite filter_cons_bool_decide. reflexivity.
Qed.

Lemma filteredTodos_tail (t : Todo) (l : list Todo) (q : string) :
  (exists r, filteredTodos (t :: l) q = Normal r) ->
  (exists b, matches q t = Normal b) /\
  (exists r, filteredTodos l q = Normal r).
Proof.
  unfold filteredTodos. rewrite filterC_cons. intros [r H].
  destruct (matches q t) as [b|e]; [|discriminate H].
  destruct (filterC (matches q) l) as [r'|e]; [|discriminate H].
  eauto.
Qed.

(** A task on which the callback never throws has text in both fields. *)
Lemma matches_total_well_typed (t : Todo) :
  (forall q, exists b, matches q t = Normal b) -> well_typed t.
Proof.
  intros H. destruct (H "") as [b0 H0]. rewrite matches_unfold in H0.
  destruct (title t) as [| | | |a] eqn:Ha; try discriminate H0.
  split; [exists a; exact Ha|].
  destruct (H (String "x" a)) as [b1 H1].
  rewrite matches_unfold, Ha in H1.
  destruct (includes (toLowerCase a) (toLowerCase (String "x" a))) eqn:Hinc.
  - apply includes_length in Hinc. rewrite !length_toLowerCase in Hinc.
    simpl in Hinc. lia.
  - destruct (description t) as [| | | |d] eqn:Hd; try discriminate H1.
    exists d. reflexivity.
Qed.

End View.

(** ** The search over any alphabet: facts *)

Section AnyTextFacts.

Context {C : Type} `{!EqDecision C}.
Variable lower : list C -> list C.
Context {T : Type}.
Variables title_of description_of : T -> option (list C).

Lemma any_startsWith_spec (s q : list C) :
  AnyText.startsWith s q = true <-> exists post, s = q ++ post.
Proof.
  revert s. induction q as [|c q IH]; intros s; simpl.
  - split; [intros _; exists s; reflexivity | intros _; reflexivity].
  - destruct s as [|d s].
    + split; [discriminate | intros [post Hs]; discriminate Hs].
    + rewrite andb_true_iff, bool_decide_eq_true, IH. split.
      * intros [-> [post ->]]. exists post. reflexivity.
      * intros [post Hs]. injection Hs as -> ->.
        split; [reflexivity | exists post; reflexivity].
Qed.

Lemma any_includes_spec (s q : list C) :
  AnyText.includes s q = true <-> exists pre post, s = pre ++ q ++ post.
Proof.
  induction s as [|c s IH]; simpl; rewrite orb_true_iff, any_startsWith_spec.
  - split.
    + intros [[post Hs]|Hs]; [|discriminate Hs]. exists [], post. exact Hs.
    + intros (pre & post & Hs). left.
      destruct pre as [|d pre]; [exists post; exact Hs | discriminate Hs].
  - rewrite IH. split.
    + intros [[post Hs]|(pre & post & Hs)].
      * exists [], post. exact Hs.
      * exists (c :: pre), post. simpl. congruence.
    + intros (pre & post & Hs). destruct pre as [|d pre].
      * left. exists post. exact Hs.
      * right. exists pre, post. simpl in Hs. congruence.
Qed.

(** An occurrence in an occurrence is an occurrence. *)
Lemma any_includes_trans (s q2 q1 : list C) :
  AnyText.includes q2 q1 = true -> AnyText.includes s q2 = true ->
  AnyText.includes s q1 = true.
Proof.
  rewrite !any_includes_spec. intros (p & r & ->) (a & b & ->).
  exists (a ++ p), (r ++ b). rewrite <- !app_assoc. reflexivity.
Qed.

Lemma any_matches_unfold (q : list C) (t : T) :
  AnyText.matches lower title_of description_of q t =
  match title_of t with
  | Some a =>
      if AnyText.includes (lower a) (lower q) then Normal true
      else match description_of t with
           | Some b => Normal (AnyText.includes (lower b) (lower q))
           | None => Throw TypeError
           end
  | None => Throw TypeError
  end.
Proof.
  unfold AnyText.matches. destruct (title_of t); [|reflexivity]. simpl.
  destruct (AnyText.includes _ _); [reflexivity|].
  destruct (description_of t); reflexivity.
Qed.

Lemma any_lowered_contains_includes (q s : list C) :
  AnyText.lowered_contains lower q (Some s) <->
  AnyText.includes (lower s) (lower q) = true.
Proof.
  rewrite any_includes_spec. unfold AnyText.lowered_contains. split.
  - intros (s' & pre & post & [= <-] & Hs). eauto.
  - intros (pre & post & Hs). exists s, pre, post. auto.
Qed.

#[global] Instance any_lowered_contains_dec q v :
  Decision (AnyText.lowered_contains lower q v).
Proof.
  destruct v as [s|].
  - destruct (AnyText.includes (lower s) (lower q)) eqn:Hi.
    + left. apply any_lowered_contains_includes, Hi.
    + right. rewrite any_lowered_contains_includes, Hi. discriminate.
  - right. intros (s & pre & post & Hs & _). discriminate Hs.
Defined.

#[global] Instance any_selected_dec q t :
  Decision (AnyText.selected lower title_of description_of q t).
Proof. unfold AnyText.selected. apply _. Defined.

(** Whenever the callback returns, it says whether the lower-cased title
    or description holds the lower-cased query. *)
Lemma any_matches_sound (q : list C) (t : T) (b : bool) :
  AnyText.matches lower title_of description_of q t = Normal b ->
  b = bool_decide (AnyText.selected lower title_of description_of q t).
Proof.
  rewrite any_matches_unfold.
  destruct (title_of t) as [a|] eqn:Ha; [|discriminate].
  assert (AnyText.selected lower title_of description_of q t <->
          AnyText.includes (lower a) (lower q) = true \/
          AnyText.lowered_contains lower q (description_of t)) as Hsel.
  { unfold AnyText.selected.
    rewrite Ha, any_lowered_contains_includes. reflexivity. }
  destruct (AnyText.includes (lower a) (lower q)).
  - intros [= <-]. symmetry. apply bool_decide_eq_true. tauto.
  - destruct (description_of t) as [d|] eqn:Hd; [|discriminate].
    rewrite any_lowered_contains_includes in Hsel. intros [= <-].
    destruct (AnyText.includes (lower d) (lower q)); symmetry;
      (apply bool_decide_eq_true || apply bool_decide_eq_false);
      rewrite Hsel; intuition discriminate.
Qed.

Lemma any_matches_has_text (q : list C) (t : T) :
  AnyText.has_text title_of description_of t ->
  exists b, AnyText.matches lower title_of description_of q t = Normal b.
Proof.
  intros [[a Ha] [d Hd]]. rewrite any_matches_unfold, Ha, Hd.
  destruct (AnyText.includes _ _); eauto.
Qed.

Lemma any_filteredTodos_sound (l r : list T) (q : list C) :
  AnyText.filteredTodos lower title_of description_of l q = Normal r ->
  r = filter (AnyText.selected lower title_of description_of q) l.
Proof.
  unfold AnyText.filteredTodos. revert r.
  induction l as [|t l IH]; intros r Hr.
  - injection Hr as <-. reflexivity.
  - rewrite filterC_cons in Hr.
    destruct (AnyText.matches _ _ _ q t) as [b|e] eqn:Hm; [|discriminate Hr].
    destruct (filterC _ l) as [r'|e]; [|discriminate Hr].
    injection Hr as <-. rewrite filter_cons_bool_decide.
    rewrite <- (any_matches_sound _ _ _ Hm), <- (IH r' eq_refl). reflexivity.
Qed.

Lemma any_filteredTodos_has_text (l : list T) (q : list C) :
  Forall (AnyText.has_text title_of description_of) l ->
  AnyText.filteredTodos lower title_of description_of l q
  = Normal (filter (AnyText.selected lower title_of description_of q) l).
Proof.
  unfold AnyText.filteredTodos. induction 1 as [|t l Ht _ IH]; [reflexivity|].
  destruct (any_matches_has_text q t Ht) as [b Hb].
  rewrite filterC_cons, Hb, IH, filter_cons_bool_decide.
  rewrite <- (any_matches_sound _ _ _ Hb). reflexivity.
Qed.

(** The callback returns on the wider query when it does on the narrower,
    and says yes when the narrower says yes. *)
Lemma any_matches_wider (q1 q2 : list C) (t : T) (b2 : bool) :
  AnyText.includes (lower q2) (lower q1) = true ->
  AnyText.matches lower title_of description_of q2 t = Normal b2 ->
  exists b1,
    AnyText.matches lower title_of description_of q1 t = Normal b1 /\
    (b2 = true -> b1 = true).
Proof.
  intros Hq. rewrite !any_matches_unfold.
  destruct (title_of t) as [a|]; [|discriminate].
  destruct (AnyText.includes (lower a) (lower q1)) eqn:H1.
  - intros _. exists true. auto.
  - destruct (AnyText.includes (lower a) (lower q2)) eqn:H2.
    + rewrite (any_includes_trans _ _ _ Hq H2) in H1. discriminate H1.
    + destruct (description_of t) as [d|]; [|discriminate].
      intros [= <-]. eexists. split; [reflexivity|].
      apply any_includes_trans, Hq.
Qed.

End AnyTextFacts.

(** ** The component's search as an instance *)

Section Units.

Lemma startsWith_units (s q : string) :
  startsWith s q
  = AnyText.startsWith (list_ascii_of_string s) (list_ascii_of_string q).
Proof.
  revert s. induction q as [|c q IH]; intros s; [reflexivity|].
  destruct s as [|d s]; [reflexivity|]. simpl. rewrite IH. reflexivity.
Qed.

Lemma includes_units (s q : string) :
  includes s q
  = AnyText.includes (list_ascii_of_string s) (list_ascii_of_string q).
Proof.
  induction s as [|c s IH]; simpl; rewrite startsWith_units; [reflexivity|].
  rewrite IH. reflexivity.
Qed.

Lemma toLowerCase_units_spec (s : string) :
  toLowerCase_units (list_ascii_of_string s)
  = list_ascii_of_string (toLowerCase s).
Proof.
  unfold toLowerCase_units. rewrite string_of_list_ascii_of_string.
  reflexivity.
Qed.

(** The callback of the component is the general one, at the units and the
    [toLowerCase] of the component. *)
Lemma matches_units (q : string) (t : Todo) :
  matches q t
  = AnyText.matches toLowerCase_units
      (fun t => text_of (title t)) (fun t => text_of (description t))
      (list_ascii_of_string q) t.
Proof.
  rewrite matches_unfold, any_matches_unfold.
  destruct (title t) as [| | | |a]; try reflexivity. simpl.
  rewrite !toLowerCase_units_spec, <- includes_units.
  destruct (includes _ _); [reflexivity|].
  destruct (description t) as [| | | |d]; try reflexivity. simpl.
  rewrite toLowerCase_units_spec, <- includes_units. reflexivity.
Qed.

Lemma filteredTodos_units (l : list Todo) (q : string) :
  filteredTodos l q
  = AnyText.filteredTodos toLowerCase_units
      (fun t => text_of (title t)) (fun t => text_of (description t))
      l (list_ascii_of_string q).
Proof.
  unfold filteredTodos, AnyText.filteredTodos.
  induction l as [|t l IH]; [reflexivity|].
  rewrite !filterC_cons, IH, matches_units. reflexivity.
Qed.

(** The table of capitals and the lower-casing of the component agree on
    which characters are the same letter. *)
Lemma same_up_to_case_lower (a b : ascii) :
  same_up_to_case a b = bool_decide (lower_char a = lower_char b).
Proof.
  assert (forallb (fun a => forallb (fun b =>
            Bool.eqb (same_up_to_case a b)
                     (bool_decide (lower_char a = lower_char b)))
            all_codes) all_codes = true) as Hall
    by (vm_compute; reflexivity).
  rewrite forallb_forall in Hall. specialize (Hall a (all_codes_complete a)).
  rewrite forallb_forall in Hall. specialize (Hall b (all_codes_complete b)).
  apply Bool.eqb_prop in Hall. exact Hall.
Qed.

Lemma case_blind_eq_lower (s1 s2 : string) :
  case_blind_eq s1 s2 = true <-> toLowerCase s1 = toLowerCase s2.
Proof.
  revert s2. induction s1 as [|a s1 IH]; intros [|b s2]; simpl;
    try (split; [reflexivity || discriminate | reflexivity || discriminate]).
  rewrite andb_true_iff, IH, same_up_to_case_lower, bool_decide_eq_true.
  split; [intros [-> ->]; reflexivity | intros Hs; injection Hs; auto].
Qed.

Lemma case_blind_selected_iff (q : string) (t : Todo) :
  case_blind_selected q t <-> selected q t.
Proof.
  assert (forall v, case_blind_contains q v <-> ci_contains q v) as Hv.
  { intros v. unfold case_blind_contains, ci_contains,
      case_blind_substring, ci_substring.
    split; intros (s & Hs & pre & mid & post & Hsplit & Heq);
      exists s; (split; [exact Hs|]); exists pre, mid, post;
      (split; [exact Hsplit|]).
    - apply ci_eq_lower, case_blind_eq_lower, Heq.
    - apply case_blind_eq_lower, ci_eq_lower, Heq. }
  unfold case_blind_selected, selected. rewrite !Hv. reflexivity.
Qed.

#[global] Instance case_blind_selected_dec q t :
  Decision (case_blind_selected q t).
Proof.
  destruct (decide (selected q t)) as [Hs|Hs].
  - left. apply case_blind_selected_iff, Hs.
  - right. rewrite case_blind_selected_iff. exact Hs.
Defined.

Lemma filteredTodos_case_blind (l r : list Todo) (q : string) :
  filteredTodos l q = Normal r -> r = filter (case_blind_selected q) l.
Proof.
  intros Hr. rewrite (filteredTodos_sound _ _ _ Hr).
  apply list_filter_iff. intros t. symmetry. apply case_blind_selected_iff.
Qed.

End Units.

(** C8, as the component has it. Whatever the alphabet, the lower-casing,
    the collection and the query: whenever the view is computed it is the
    collection filtered, in order, down to the tasks whose title or
    description, lower-cased, holds the lower-cased query, and filtering it
    again with the same query gives it back; it is computed whenever the
    tasks have text in both fields.  In the component, typing a query
    changes neither the collection nor what was sent to the store, the view
    is the one just described at the component's [toLowerCase], and over the
    code points below U+0100, which that [toLowerCase] maps one by one, the
    view is the tasks whose title or description contains the query up to
    the case of the letters. *)
Theorem filteredTodos_case_blind_selection :
  (forall (C : Type) (dec : EqDecision C) (toLowerCase : list C -> list C)
          (T : Type) (title description : T -> option (list C))
          (todos : list T) (q : list C),
     let view :=
       filter (AnyText.selected toLowerCase title description q) todos in
     (forall r,
        AnyText.filteredTodos toLowerCase title description todos q
        = Normal r ->
        r = view /\
        AnyText.filteredTodos toLowerCase title description r q = Normal r) /\
     (Forall (AnyText.has_text title description) todos ->
      AnyText.filteredTodos toLowerCase title description todos q
      = Normal view) /\
     view `sublist_of` todos) /\
  (forall (s : State) (q : string),
     let s' := step (ChangeSearch q) s in
     todos s' = todos s /\ sent s' = sent s /\ searchQuery s' = q /\
     filteredTodos (todos s') (searchQuery s')
     = AnyText.filteredTodos toLowerCase_units
         (fun t => text_of (title t)) (fun t => text_of (description t))
         (todos s) (list_ascii_of_string q) /\
     (forall r,
        filteredTodos (todos s') (searchQuery s') = Normal r ->
        r = filter (case_blind_selected q) (todos s))).
Proof.
  split.
  - intros C dec lower T title_of description_of l q. cbv zeta.
    split; [|split].
    + intros r Hr. split.
      * apply any_filteredTodos_sound, Hr.
      * apply (filterC_idempotent _ l), Hr.
    + apply any_filteredTodos_has_text.
    + apply sublist_filter.
  - intros s q. simpl.
    split; [reflexivity|]. split; [reflexivity|]. split; [reflexivity|].
    split.
    + apply filteredTodos_units.
    + intros r. apply filteredTodos_case_blind.
Qed.

Lemma filteredTodos_case_blind_selection_witness :
  filteredTodos (todos Sample.ready) "ALP" = Normal [Sample.a] /\
  filter (case_blind_selected "ALP") [Sample.a; Sample.b] = [Sample.a] /\
  filteredTodos (todos Sample.ready) "alpha " = Normal [].
Proof.
  destruct (proj2 filteredTodos_case_blind_selection Sample.ready "ALP")
    as (_ & _ & _ & _ & Hsel).
  split; [reflexivity|]. split; [|reflexivity].
  symmetry. apply (Hsel [Sample.a]). reflexivity.
Defined.

(** Counterexample to C8 as stated. The engine lower-cases a capital sigma
    at the end of a word to the final small sigma and a capital sigma on its
    own to the small sigma.  With any lower-casing that does so, the task
    whose title and description are capital alpha, capital sigma is not in
    the view for the query capital sigma, although the query occurs in both
    as it is written: the view is not the tasks that contain the query when
    case is ignored. *)
Lemma filteredTodos_case_blind_counterexample :
  ~ exists toLowerCase : list N -> list N,
      Greek.lowers_sigma toLowerCase /\
      forall (todos : list Greek.task) (q : list N),
        exists r,
          AnyText.filteredTodos toLowerCase Greek.title Greek.description
            todos q = Normal r /\
          forall t,
            t ∈ r <->
            t ∈ todos /\
            AnyText.ci_selected toLowerCase Greek.title Greek.description q t.
Proof.
  intros (lower & [Hword Hlone] & Hclaim).
  destruct (Hclaim [([Greek.Alpha; Greek.Sigma], [Greek.Alpha; Greek.Sigma])]
                   [Greek.Sigma]) as (r & Hr & Hiff).
  unfold AnyText.filteredTodos in Hr.
  rewrite filterC_cons, any_matches_unfold in Hr. simpl in Hr.
  rewrite Hword, Hlone in Hr. injection Hr as <-.
  apply (not_elem_of_nil ([Greek.Alpha; Greek.Sigma],
                          [Greek.Alpha; Greek.Sigma])).
  apply Hiff. split; [apply list_elem_of_singleton; reflexivity|].
  left. exists [Greek.Alpha; Greek.Sigma]. split; [reflexivity|].
  exists [Greek.Alpha], [Greek.Sigma], []. split; reflexivity.
Qed.

(** C10. The view is computed without an exception for every query exactly
    when every task of the collection has text in [title] and [description];
    a collection holding an item the store returned without a description
    makes the computation throw. *)
Theorem filteredTodos_total_iff_well_typed :
  (forall l : list Todo,
     (forall q, exists r, filteredTodos l q = Normal r) <->
     Forall well_typed l) /\
  filteredTodos [Sample.a; Sample.bare] "alp" = Throw TypeError.
Proof.
  split; [|reflexivity].
  intros l. split.
  - induction l as [|t l IH]; intros H; constructor.
    + apply matches_total_well_typed. intros q.
      apply (filteredTodos_tail t l q), H.
    + apply IH. intros q. apply (filteredTodos_tail t l q), H.
  - intros H q. eexists. apply filteredTodos_well_typed, H.
Qed.

(** ** The reconciler *)

Section Reconciler.

Lemma step_settle (s : State) (k : nat) (c : Suspended) (r : Outcome) :
  awaiting s !! k = Some c ->
  step (Settle k r) s = resume c r (setAwaiting (delete k (awaiting s)) s).
Proof. intros H. simpl. rewrite H. reflexivity. Qed.

Lemma run_app (es1 es2 : list Event) (s : State) :
  run (es1 ++ es2) s = run es2 (run es1 s).
Proof. apply foldl_app. Qed.

Lemma run_cons (e : Event) (es : list Event) (s : State) :
  run (e :: es) s = run es (step e s).
Proof. reflexivity. Qed.

Lemma elem_of_ids (id : JsPrim) (l : list Todo) :
  id ∈ ids l <-> exists t, t ∈ l /\ _id t = id.
Proof.
  unfold ids. rewrite list_elem_of_fmap.
  split; intros (t & H1 & H2); exists t; auto.
Qed.

(** Dropping entries keeps the ids distinct. *)
Lemma NoDup_ids_filter (P : Todo -> Prop) `{!forall t, Decision (P t)}
    (l : list Todo) :
  NoDup (ids l) -> NoDup (ids (filter P l)).
Proof.
  unfold ids. intros Hnd.
  eapply sublist_NoDup; [exact Hnd | apply fmap_sublist, sublist_filter].
Qed.

(** Filtering on an id removes every entry that carries it. *)
Lemma filter_other_id_absent (id : JsPrim) (l : list Todo) :
  id ∉ ids (filter (other_id id) l).
Proof.
  rewrite elem_of_ids. intros (t & Ht & Hid).
  apply list_elem_of_filter in Ht as [Hne _]. exact (Hne Hid).
Qed.

(** Filtering on an id no entry carries changes nothing. *)
Lemma filter_other_id_fresh (id : JsPrim) (l : list Todo) :
  id ∉ ids l -> filter (other_id id) l = l.
Proof.
  induction l as [|t l IH]; intros H; [reflexivity|].
  unfold ids in H. rewrite fmap_cons, not_elem_of_cons in H.
  destruct H as [Hne Hl].
  rewrite filter_cons_True by (unfold other_id; congruence).
  rewrite (IH Hl). reflexivity.
Qed.

(** Filtering on the id of a single entry removes just that entry. *)
Lemma filter_other_id_middle (id : JsPrim) (l1 l2 : list Todo) (t : Todo) :
  _id t = id -> id ∉ ids l1 -> id ∉ ids l2 ->
  filter (other_id id) (l1 ++ t :: l2) = l1 ++ l2.
Proof.
  intros Ht H1 H2. rewrite filter_app, filter_cons_False.
  - rewrite !filter_other_id_fresh by assumption. reflexivity.
  - unfold other_id. intros Hne. exact (Hne Ht).
Qed.

(** The decimal strings of two clock readings differ when the readings do. *)
Lemma tempId_inj (now now' : Z) : tempId now = tempId now' -> now = now'.
Proof. unfold tempId, toString. apply pretty_Z_inj. Qed.

(** [setLoading true] is called nowhere. *)
Lemma step_loading (e : Event) (s : State) :
  loading s = false -> loading (step e s) = false.
Proof.
  intros H. destruct e as [| v | v | v | now date | id | k r]; simpl; trivial.
  - unfold handleAddTodo. destruct (decide _); trivial.
  - destruct (awaiting s !! k) as [c|]; [|exact H].
    destruct c, r; simpl; trivial.
Qed.

Lemma run_loading (es : list Event) (s : State) :
  loading s = false -> loading (run es s) = false.
Proof.
  revert s. induction es as [|e es IH]; intros s H; [exact H|].
  rewrite run_cons. apply IH, step_loading, H.
Qed.

(** The only place that notifies the user is the [catch] of
    [handleAddTodo]. *)
Lemma step_alerts (e : Event) (s : State) :
  alerts (step e s) = alerts s \/
  exists k tempId todos0,
    e = Settle k Rejected /\
    awaiting s !! k = Some (InHandleAddTodo tempId todos0) /\
    alerts (step e s) = alerts s ++ ["Failed to save todo."].
Proof.
  destruct e as [| v | v | v | now date | id | k r]; simpl; auto.
  - left. unfold handleAddTodo. destruct (decide _); reflexivity.
  - destruct (awaiting s !! k) as [c|] eqn:Hk; [|auto].
    destruct c as [|tid l0|], r as [d|]; simpl; auto.
    right. exists k, tid, l0. auto.
Qed.

Lemma distinct_ids_init : distinct_ids init.
Proof.
  split; [constructor|]. intros tid l0 H. simpl in H. inversion H.
Qed.

Lemma distinct_ids_step (e : Event) (s : State) :
  admissible s e -> distinct_ids s -> distinct_ids (step e s).
Proof.
  intros Hadm [Hnd Hsnap].
  assert (forall k tid l0,
            InHandleAddTodo tid l0 ∈ delete k (awaiting s) ->
            NoDup (ids l0)) as Hdel.
  { intros k tid l0 H. apply (Hsnap tid l0).
    eapply elem_of_sublist; [exact H | apply sublist_delete]. }
  destruct e as [| v | v | v | now date | id | k r]; simpl;
    try (split; assumption).
  - (* Mount *)
    split; [exact Hnd|]. intros tid l0 H. simpl in H.
    apply elem_of_app in H as [H|H]; [eauto|].
    apply list_elem_of_singleton in H. discriminate H.
  - (* Submit *)
    unfold handleAddTodo. destruct (decide _); [split; assumption|].
    split; simpl.
    + change (NoDup (JStr (tempId now) :: ids (todos s))).
      constructor; assumption.
    + intros tid l0 H. apply elem_of_app in H as [H|H]; [eauto|].
      apply list_elem_of_singleton in H. injection H as _ ->. exact Hnd.
  - (* ClickDelete *)
    split; simpl.
    + apply NoDup_ids_filter, Hnd.
    + intros tid l0 H. apply elem_of_app in H as [H|H]; [eauto|].
      apply list_elem_of_singleton in H. discriminate H.
  - (* Settle *)
    destruct (awaiting s !! k) as [c|] eqn:Hk; [|split; assumption].
    destruct c as [|tid0 l1|], r as [d|]; simpl; split; simpl;
      try exact Hnd; try exact (Hdel k);
      try (intros tid l0 H; apply elem_of_app in H as [H|H];
           [exact (Hdel k tid l0 H)
           |apply list_elem_of_singleton in H; discriminate H]).
    + apply Hadm. exact Hk.
    + apply NoDup_ids_filter, (Hsnap tid0 l1).
      apply list_elem_of_lookup. eauto.
Qed.

Lemma distinct_ids_run (es : list Event) (s : State) :
  admissible_run s es -> distinct_ids s -> distinct_ids (run es s).
Proof.
  revert s. induction es as [|e es IH]; intros s Hadm Hs; [exact Hs|].
  destruct Hadm as [He Hes]. rewrite run_cons.
  apply IH; [exact Hes|]. apply distinct_ids_step; assumption.
Qed.

End Reconciler.

(** ** Loading *)

(** C3. Whatever the collection, when the list request of [fetchTodos]
    succeeds the collection becomes the returned list as it is; when it
    fails the collection is left as it was, the failure goes to the console
    and nothing else happens: no notification, no new request. *)
Theorem fetchTodos_replaces_or_keeps (s : State) (k : nat) :
  awaiting s !! k = Some InFetchTodos ->
  (forall data, todos (step (Settle k (Fulfilled data)) s) = data) /\
  (let s' := step (Settle k Rejected) s in
   todos s' = todos s /\
   console s' = console s ++ ["Fetch error:"] /\
   alerts s' = alerts s /\
   sent s' = sent s /\
   awaiting s' = delete k (awaiting s)).
Proof.
  intros H. split.
  - intros data. rewrite (step_settle _ _ _ _ H). reflexivity.
  - cbv zeta. rewrite (step_settle _ _ _ _ H). repeat split.
Qed.

Lemma fetchTodos_replaces_or_keeps_witness :
  awaiting (step Mount Sample.ready) !! 0%nat = Some InFetchTodos /\
  todos (step (Settle 0 (Fulfilled [Sample.b; Sample.a]))
              (step Mount Sample.ready)) = [Sample.b; Sample.a] /\
  todos (step (Settle 0 Rejected) (step Mount Sample.ready))
  = [Sample.a; Sample.b].
Proof.
  assert (awaiting (step Mount Sample.ready) !! 0%nat = Some InFetchTodos)
    as H by reflexivity.
  split; [exact H|]. split.
  - exact (proj1 (fetchTodos_replaces_or_keeps _ _ H) [Sample.b; Sample.a]).
  - exact (proj1 (proj2 (fetchTodos_replaces_or_keeps _ _ H))).
Defined.

(** C9. When a list request settles, with either outcome, [loading] becomes
    false, and it is false after every further sequence of events: creating,
    deleting and the list requests these start never bring it back. *)
Theorem loading_never_returns (s : State) (k : nat) (r : Outcome)
    (es : list Event) :
  awaiting s !! k = Some InFetchTodos ->
  loading (step (Settle k r) s) = false /\
  loading (run es (step (Settle k r) s)) = false.
Proof.
  intros H.
  assert (loading (step (Settle k r) s) = false) as Hl.
  { rewrite (step_settle _ _ _ _ H). reflexivity. }
  split; [exact Hl | apply run_loading, Hl].
Qed.

Lemma loading_never_returns_witness :
  loading (step Mount init) = true /\
  awaiting (step Mount init) !! 0%nat = Some InFetchTodos /\
  loading (run (Sample.create_XY ++ [Settle 0 (Fulfilled []);
                                     ClickDelete (JStr "a");
                                     Settle 1 Rejected])
               (step (Settle 0 Rejected) (step Mount init))) = false.
Proof.
  split; [reflexivity|].
  assert (awaiting (step Mount init) !! 0%nat = Some InFetchTodos)
    as H by reflexivity.
  split; [exact H|].
  exact (proj2 (loading_never_returns _ _ Rejected _ H)).
Defined.

(** ** Creating *)

(** C7. Whatever the state, submitting the form with a title made of white
    space only (or empty) leaves the whole state as it was: the collection,
    the form, the requests sent and the suspended handlers. *)
Theorem handleAddTodo_blank_title (s : State) (now date : Z) :
  whitespace_only (form_title (formData s)) = true ->
  step (Submit now date) s = s.
Proof.
  intros H. apply trim_empty in H. simpl. unfold handleAddTodo.
  destruct (decide _) as [_|Hne]; [reflexivity | contradiction].
Qed.

Lemma handleAddTodo_blank_title_witness :
  let s := run [ChangeTitle "   "; ChangeDescription "desc"] Sample.ready in
  whitespace_only (form_title (formData s)) = true /\
  step (Submit Sample.clock Sample.clock) s = s.
Proof.
  cbv zeta. split; [reflexivity|].
  apply handleAddTodo_blank_title. reflexivity.
Defined.

(** [handleAddTodo] past its guard. *)
Lemma handleAddTodo_accepted (s : State) (now date : Z) :
  trim (form_title (formData s)) <> "" ->
  step (Submit now date) s =
  await (POST_createTodo (formData s))
        (InHandleAddTodo (tempId now) (todos s))
        (setFormData (mkForm "" "")
           (setTodos (newTodo (formData s) now date :: todos s) s)).
Proof.
  intros H. simpl. unfold handleAddTodo.
  destruct (decide _) as [He|_]; [contradiction | reflexivity].
Qed.

(** C4, as the component has it. Whatever the state, submitting the form
    with a title that is not blank puts a new task in front of the
    collection at once, the create request being sent and not yet settled:
    its id is the decimal string of the clock reading, which differs from
    the temporary id made at any other reading and is new to the collection
    exactly when no entry already carries that string as id; [sync] is
    false, [createdAt] is the current date, title and description are those
    of the form; the tasks already there follow in their order. *)
Theorem handleAddTodo_inserts_in_front (s : State) (now date : Z) :
  trim (form_title (formData s)) <> "" ->
  let s' := step (Submit now date) s in
  let t := newTodo (formData s) now date in
  todos s' = t :: todos s /\
  _id t = JStr (tempId now) /\
  (forall now', now' <> now -> tempId now' <> tempId now) /\
  (NoDup (ids (todos s)) ->
   NoDup (ids (todos s')) <-> JStr (tempId now) ∉ ids (todos s)) /\
  sync t = JBool false /\
  createdAt t = DateObject date /\
  title t = JStr (form_title (formData s)) /\
  description t = JStr (form_description (formData s)) /\
  sent s' = sent s ++ [POST_createTodo (formData s)] /\
  awaiting s' = awaiting s ++ [InHandleAddTodo (tempId now) (todos s)].
Proof.
  intros H. cbv zeta. rewrite (handleAddTodo_accepted _ _ _ H).
  split; [reflexivity|]. split; [reflexivity|]. split; [|split].
  - intros now' Hne Heq. apply Hne, tempId_inj, Heq.
  - intros Hnd.
    change (NoDup (JStr (tempId now) :: ids (todos s))
            <-> JStr (tempId now) ∉ ids (todos s)).
    rewrite NoDup_cons. tauto.
  - repeat split.
Qed.

Lemma handleAddTodo_inserts_in_front_witness :
  let s := run [ChangeTitle " Buy milk "; ChangeDescription "2%"]
               Sample.ready in
  trim (form_title (formData s)) <> "" /\
  todos (step (Submit Sample.clock Sample.clock) s)
  = newTodo (mkForm " Buy milk " "2%") Sample.clock Sample.clock
    :: [Sample.a; Sample.b].
Proof.
  cbv zeta.
  assert (trim (form_title (formData
            (run [ChangeTitle " Buy milk "; ChangeDescription "2%"]
                 Sample.ready))) <> "") as H by discriminate.
  split; [exact H|].
  exact (proj1 (handleAddTodo_inserts_in_front _ Sample.clock Sample.clock H)).
Defined.

(** Counterexample to C4 as stated. The collection holds an item whose id is the
    decimal string of the clock reading at which the form is submitted: the
    id given to the new task is the id of that item. *)
Lemma handleAddTodo_id_not_fresh :
  let s := run [Mount; Settle 0 (Fulfilled [Sample.clash]);
                ChangeTitle "X"; ChangeDescription "Y"] init in
  trim (form_title (formData s)) <> "" /\
  todos (step (Submit Sample.clock Sample.clock) s)
  = [Sample.tmp; Sample.clash] /\
  _id Sample.tmp = _id Sample.clash.
Proof.
  cbv zeta. split; [discriminate|]. vm_compute. split; reflexivity.
Qed.

(** What the [catch] of [handleAddTodo] does, in any state: the collection
    becomes the snapshot the call took when the form was submitted, without
    the entries that carry the temporary id; the user is notified once;
    nothing is sent. *)
Lemma handleAddTodo_catch (s : State) (k : nat) (tid : string)
    (todos0 : list Todo) :
  awaiting s !! k = Some (InHandleAddTodo tid todos0) ->
  let s' := step (Settle k Rejected) s in
  todos s' = filter (other_id (JStr tid)) todos0 /\
  alerts s' = alerts s ++ ["Failed to save todo."] /\
  sent s' = sent s /\
  awaiting s' = delete k (awaiting s).
Proof.
  intros H. cbv zeta. rewrite (step_settle _ _ _ _ H). repeat split.
Qed.

(** X2. A create that fails before anything else touches the collection is
    undone exactly, provided no task already carried the temporary id; in
    particular a create on the empty collection leaves it empty. *)
Lemma create_rollback_undisturbed (s : State) (now date : Z) :
  trim (form_title (formData s)) <> "" ->
  JStr (tempId now) ∉ ids (todos s) ->
  let s1 := step (Submit now date) s in
  let s2 := step (Settle (length (awaiting s)) Rejected) s1 in
  todos s2 = todos s /\
  alerts s2 = alerts s ++ ["Failed to save todo."] /\
  sent s2 = sent s1 /\
  awaiting s2 = awaiting s.
Proof.
  intros Ht Hfresh. cbv zeta.
  assert (awaiting (step (Submit now date) s)
          = awaiting s ++ [InHandleAddTodo (tempId now) (todos s)]) as Haw.
  { rewrite (handleAddTodo_accepted _ _ _ Ht). reflexivity. }
  assert (awaiting (step (Submit now date) s) !! length (awaiting s)
          = Some (InHandleAddTodo (tempId now) (todos s))) as Hk.
  { rewrite Haw. apply list_lookup_middle. reflexivity. }
  destruct (handleAddTodo_catch _ _ _ _ Hk) as (H1 & H2 & H3 & H4).
  cbv zeta in H1, H2, H3, H4. rewrite H1, H2, H3, H4.
  rewrite (filter_other_id_fresh _ _ Hfresh).
  rewrite Haw, delete_middle, app_nil_r.
  rewrite (handleAddTodo_accepted _ _ _ Ht). repeat split.
Qed.

(** C1. With [a] and [b] loaded, the form is submitted, then [a] is deleted
    and the store confirms the deletion, then the create request fails.
    Before the failure the collection is the temporary entry and [b];
    removing the temporary entry would leave [b]; the [catch] instead puts
    back the snapshot taken at submission, so [a] is shown again. *)
Theorem create_rollback_restores_snapshot :
  let before :=
    run (Sample.create_XY ++ [ClickDelete (JStr "a"); Settle 1 (Fulfilled [])])
        Sample.ready in
  let after := step (Settle 0 Rejected) before in
  todos before = [Sample.tmp; Sample.b] /\
  awaiting before
  = [InHandleAddTodo (tempId Sample.clock) [Sample.a; Sample.b]] /\
  filter (other_id (JStr (tempId Sample.clock))) (todos before) = [Sample.b] /\
  todos after = [Sample.a; Sample.b] /\
  alerts after = ["Failed to save todo."] /\
  sent after = sent before.
Proof. vm_compute. repeat split. Qed.

(** C2, as the component has it. Along every sequence of events in which
    each list response carries no id twice and no form is submitted at a
    clock reading whose decimal string is already an id of the collection,
    the collection never holds an id twice. When a create then in flight
    succeeds, the collection is left as it is, temporary entry included,
    and a list request is sent; from then on, after whatever events, a list
    request that succeeds makes the collection the store's list and one
    that fails leaves the collection as it is. *)
Theorem ids_stay_distinct (es : list Event) :
  admissible_run init es ->
  let s := run es init in
  NoDup (ids (todos s)) /\
  forall k tid todos0 data,
    awaiting s !! k = Some (InHandleAddTodo tid todos0) ->
    let s1 := step (Settle k (Fulfilled data)) s in
    todos s1 = todos s /\
    sent s1 = sent s ++ [GET_todos] /\
    awaiting s1 = delete k (awaiting s) ++ [InFetchTodos] /\
    forall es' j,
      let s2 := run es' s1 in
      awaiting s2 !! j = Some InFetchTodos ->
      (forall data', todos (step (Settle j (Fulfilled data')) s2) = data') /\
      todos (step (Settle j Rejected) s2) = todos s2.
Proof.
  intros Hadm. cbv zeta. split.
  - apply (distinct_ids_run es init Hadm distinct_ids_init).
  - intros k tid todos0 data Hk. rewrite (step_settle _ _ _ _ Hk).
    split; [reflexivity|]. split; [reflexivity|]. split; [reflexivity|].
    intros es' j Hj. split.
    + intros data'. rewrite (step_settle _ _ _ _ Hj). reflexivity.
    + rewrite (step_settle _ _ _ _ Hj). reflexivity.
Qed.

Lemma ids_stay_distinct_witness :
  let es := [Mount; Settle 0 (Fulfilled [Sample.a; Sample.b])]
            ++ Sample.create_XY in
  admissible_run init es /\ NoDup (ids (todos (run es init))).
Proof.
  cbv zeta.
  assert (admissible_run init
            ([Mount; Settle 0 (Fulfilled [Sample.a; Sample.b])]
             ++ Sample.create_XY)) as H.
  { simpl. repeat split.
    - intros _. apply (bool_decide_unpack _). vm_compute. exact I.
    - apply (bool_decide_unpack _). vm_compute. exact I. }
  split; [exact H|]. exact (proj1 (ids_stay_distinct _ H)).
Defined.

(** Counterexample to C2 as stated. The store lists an item whose id is the
    decimal string of the clock reading at which the form is then
    submitted: the collection holds that id twice. After a create that
    succeeded, with the list request that follows failing, the temporary
    entry is still in the collection while nothing is in flight. And after
    two creates that both failed, the second rollback puts back the
    snapshot taken at the second submission, so the temporary entry of the
    first create is in the collection while nothing is in flight. *)
Lemma ids_stay_distinct_counterexample :
  ~ NoDup (ids (todos (run ([Mount; Settle 0 (Fulfilled [Sample.clash])]
                            ++ Sample.create_XY) init))) /\
  (let s := run ([Mount; Settle 0 (Fulfilled [])] ++ Sample.create_XY
                 ++ [Settle 0 (Fulfilled []); Settle 0 Rejected]) init in
   todos s = [Sample.tmp] /\ awaiting s = []) /\
  (let s := run [Mount; Settle 0 (Fulfilled []);
                 ChangeTitle "A"; Submit 1 1; ChangeTitle "B"; Submit 2 2;
                 Settle 0 Rejected; Settle 0 Rejected] init in
   todos s = [newTodo (mkForm "A" "") 1 1] /\ awaiting s = []).
Proof.
  split; [|split].
  - apply (bool_decide_unpack _). vm_compute. exact I.
  - vm_compute. split; reflexivity.
  - vm_compute. split; reflexivity.
Qed.

(** ** Deleting *)

(** C5. Whatever the collection and the id, a click on delete removes at
    once, with the delete request sent and not yet settled, the entries that
    carry the id and nothing else: the other tasks stay, unchanged and in
    their order; an entry that is the only one with the id is cut out of the
    list; with no such entry the collection is unchanged. *)
Theorem handleDelete_removes_only_id (s : State) (id : JsPrim) :
  let s' := step (ClickDelete id) s in
  todos s' = filter (other_id id) (todos s) /\
  (forall t, t ∈ todos s' <-> t ∈ todos s /\ _id t <> id) /\
  todos s' `sublist_of` todos s /\
  (forall l1 t l2,
     todos s = l1 ++ t :: l2 -> _id t = id ->
     id ∉ ids l1 -> id ∉ ids l2 -> todos s' = l1 ++ l2) /\
  (id ∉ ids (todos s) -> todos s' = todos s) /\
  sent s' = sent s ++ [DELETE_deleteTodo id] /\
  awaiting s' = awaiting s ++ [InHandleDelete] /\
  alerts s' = alerts s.
Proof.
  simpl. split; [reflexivity|]. split; [|split; [|split; [|split]]].
  - intros t. rewrite list_elem_of_filter. unfold other_id. tauto.
  - apply sublist_filter.
  - intros l1 t l2 -> Ht H1 H2. apply filter_other_id_middle; assumption.
  - apply filter_other_id_fresh.
  - auto.
Qed.

(** C6. For a delete request in flight: when it succeeds nothing changes
    but the handler being done; when it fails the collection is left as it
    is, a list request is sent whose success makes the collection the
    store's list, and neither the user nor the console is told. In every
    state and for every event, the notifications either stay as they are or
    grow by the one message of a failed create. *)
Theorem handleDelete_settles_quietly (s : State) (k : nat) :
  awaiting s !! k = Some InHandleDelete ->
  (forall data,
     step (Settle k (Fulfilled data)) s
     = setAwaiting (delete k (awaiting s)) s) /\
  (let s' := step (Settle k Rejected) s in
   todos s' = todos s /\
   sent s' = sent s ++ [GET_todos] /\
   awaiting s' = delete k (awaiting s) ++ [InFetchTodos] /\
   alerts s' = alerts s /\
   console s' = console s /\
   forall j data,
     awaiting s' !! j = Some InFetchTodos ->
     todos (step (Settle j (Fulfilled data)) s') = data) /\
  (forall e s0,
     alerts (step e s0) = alerts s0 \/
     exists k' tid todos0,
       e = Settle k' Rejected /\
       awaiting s0 !! k' = Some (InHandleAddTodo tid todos0) /\
       alerts (step e s0) = alerts s0 ++ ["Failed to save todo."]).
Proof.
  intros H. split; [|split].
  - intros data. rewrite (step_settle _ _ _ _ H). reflexivity.
  - cbv zeta. rewrite (step_settle _ _ _ _ H). repeat split.
    intros j data Hj. rewrite (step_settle _ _ _ _ Hj). reflexivity.
  - apply step_alerts.
Qed.

Lemma handleDelete_settles_quietly_witness :
  let s := step (ClickDelete (JStr "a")) Sample.ready in
  awaiting s !! 0%nat = Some InHandleDelete /\
  todos (step (Settle 0 (Fulfilled [])) s) = [Sample.b] /\
  sent (step (Settle 0 Rejected) s)
  = [GET_todos; DELETE_deleteTodo (JStr "a"); GET_todos].
Proof.
  cbv zeta.
  assert (awaiting (step (ClickDelete (JStr "a")) Sample.ready) !! 0%nat
          = Some InHandleDelete) as H by reflexivity.
  split; [exact H|]. split.
  - rewrite (proj1 (handleDelete_settles_quietly _ _ H) []). reflexivity.
  - rewrite (proj1 (proj2 (proj1 (proj2
      (handleDelete_settles_quietly _ _ H))))). reflexivity.
Defined.

(** ** The scenarios of the specification *)

Section Scenarios.

(** The component with an empty collection, first load done. *)
Let empty : State := run [Mount; Settle 0 (Fulfilled [])] init.

(** Create, the store accepts, the list call returns the stored task. *)
Example scenario_create_success :
  todos (run [ChangeTitle "Buy milk"; ChangeDescription "2%";
              Submit Sample.clock Sample.clock;
              Settle 0 (Fulfilled []);
              Settle 0 (Fulfilled [Sample.s1])] empty)
  = [Sample.s1].
Proof. reflexivity. Qed.

(** Create, the store refuses: the collection is empty again and the user
    was told once. *)
Example scenario_create_rollback :
  let s := run (Sample.create_XY ++ [Settle 0 Rejected]) empty in
  todos s = [] /\ alerts s = ["Failed to save todo."] /\
  sent s = [GET_todos; POST_createTodo (mkForm "X" "Y")].
Proof. vm_compute. repeat split. Qed.

(** Delete, the store confirms. *)
Example scenario_delete_confirmed :
  todos (step (ClickDelete (JStr "a")) Sample.ready) = [Sample.b] /\
  todos (run [ClickDelete (JStr "a"); Settle 0 (Fulfilled [])] Sample.ready)
  = [Sample.b].
Proof. split; reflexivity. Qed.

(** Delete, the store refuses, the list call brings the task back. *)
Example scenario_delete_rollback :
  todos (run [ClickDelete (JStr "a"); Settle 0 Rejected;
              Settle 0 (Fulfilled [Sample.a; Sample.b])] Sample.ready)
  = [Sample.a; Sample.b].
Proof. reflexivity. Qed.

(** A blank title: nothing changes, nothing is sent. *)
Example scenario_blank_title :
  let s := run [ChangeTitle "   "; ChangeDescription "desc"] empty in
  step (Submit Sample.clock Sample.clock) s = s /\ sent s = [GET_todos].
Proof. split; reflexivity. Qed.

(** With the search box empty every title matches, so an item without a
    description is shown; a query its title does not contain throws. *)
Example scenario_missing_description :
  filteredTodos [Sample.bare] "" = Normal [Sample.bare] /\
  filteredTodos [Sample.bare] "gam" = Normal [Sample.bare] /\
  filteredTodos [Sample.bare] "x" = Throw TypeError.
Proof. repeat split. Qed.

End Scenarios.

(** ** Further properties of the handlers *)

(** X1. Submitting twice in a row does what submitting once does: the first
    accepted submission empties the form, so the second finds a blank title
    and returns. *)
Theorem handleAddTodo_submit_twice (s : State) (now1 date1 now2 date2 : Z) :
  step (Submit now2 date2) (step (Submit now1 date1) s)
  = step (Submit now1 date1) s.
Proof.
  destruct (decide (trim (form_title (formData s)) = "")) as [Hb|Hn].
  - assert (step (Submit now1 date1) s = s) as ->.
    { simpl. unfold handleAddTodo. rewrite decide_True by exact Hb. reflexivity. }
    simpl. unfold handleAddTodo. rewrite decide_True by exact Hb. reflexivity.
  - rewrite (handleAddTodo_accepted _ _ _ Hn). reflexivity.
Qed.

(** The rollback of X2 on the sample collection. *)
Lemma create_rollback_undisturbed_witness :
  let s := run [ChangeTitle "X"; ChangeDescription "Y"] Sample.ready in
  trim (form_title (formData s)) <> "" /\
  (JStr (tempId Sample.clock) ∉ ids (todos s)) /\
  todos (step (Settle 0 Rejected) (step (Submit Sample.clock Sample.clock) s))
  = [Sample.a; Sample.b].
Proof.
  cbv zeta.
  assert (trim (form_title (formData
            (run [ChangeTitle "X"; ChangeDescription "Y"] Sample.ready)))
          <> "") as H1 by discriminate.
  assert (JStr (tempId Sample.clock)
          ∉ ids (todos (run [ChangeTitle "X"; ChangeDescription "Y"]
                            Sample.ready))) as H2.
  { apply (bool_decide_unpack _). vm_compute. exact I. }
  split; [exact H1|]. split; [exact H2|].
  exact (proj1 (create_rollback_undisturbed _ Sample.clock Sample.clock H1 H2)).
Defined.

(** X3. Deleting two ids gives the same collection in either order, and
    deleting an id a second time changes nothing more in the collection,
    though a second delete request is sent. *)
Theorem handleDelete_commutes_and_repeats (s : State) (id1 id2 : JsPrim) :
  todos (run [ClickDelete id1; ClickDelete id2] s)
  = todos (run [ClickDelete id2; ClickDelete id1] s) /\
  todos (run [ClickDelete id1; ClickDelete id1] s)
  = todos (step (ClickDelete id1) s) /\
  sent (run [ClickDelete id1; ClickDelete id1] s)
  = sent s ++ [DELETE_deleteTodo id1; DELETE_deleteTodo id1].
Proof.
  simpl. repeat split.
  - rewrite !list_filter_filter. apply list_filter_iff. intros t. tauto.
  - apply list_filter_filter_l. auto.
  - rewrite <- app_assoc. reflexivity.
Qed.

(** X4. With two list requests in flight that both succeed, the collection
    ends as the list of the one that settles last, whichever was sent
    first. *)
Theorem fetchTodos_last_settled_wins (s : State) (j k : nat)
    (d1 d2 : list Todo) :
  awaiting s !! j = Some InFetchTodos ->
  awaiting s !! k = Some InFetchTodos ->
  j <> k ->
  let k' := if decide (k < j)%nat then k else pred k in
  todos (run [Settle j (Fulfilled d1); Settle k' (Fulfilled d2)] s) = d2.
Proof.
  intros Hj Hk Hne. cbv zeta. rewrite run_cons.
  set (s1 := step (Settle j (Fulfilled d1)) s).
  assert (awaiting s1 = delete j (awaiting s)) as Ha.
  { unfold s1. rewrite (step_settle _ _ _ _ Hj). reflexivity. }
  assert (awaiting s1 !! (if decide (k < j)%nat then k else pred k)
          = Some InFetchTodos) as Hk'.
  { rewrite Ha. destruct (decide (k < j)%nat) as [Hlt|Hge].
    - rewrite list_lookup_delete_lt by exact Hlt. exact Hk.
    - rewrite list_lookup_delete_ge by lia.
      replace (S (pred k)) with k by lia. exact Hk. }
  simpl. rewrite Hk'. reflexivity.
Qed.

Lemma fetchTodos_last_settled_wins_witness :
  let s := run [Mount; ClickDelete (JStr "a"); Settle 1 Rejected] init in
  awaiting s !! 1%nat = Some InFetchTodos /\
  awaiting s !! 0%nat = Some InFetchTodos /\
  todos (run [Settle 1 (Fulfilled [Sample.a; Sample.b]);
              Settle 0 (Fulfilled [Sample.b])] s) = [Sample.b].
Proof.
  cbv zeta.
  assert (awaiting (run [Mount; ClickDelete (JStr "a"); Settle 1 Rejected] init)
            !! 1%nat = Some InFetchTodos) as H1 by reflexivity.
  assert (awaiting (run [Mount; ClickDelete (JStr "a"); Settle 1 Rejected] init)
            !! 0%nat = Some InFetchTodos) as H0 by reflexivity.
  split; [exact H1|]. split; [exact H0|].
  exact (fetchTodos_last_settled_wins _ 1 0 [Sample.a; Sample.b] [Sample.b]
           H1 H0 ltac:(discriminate)).
Defined.

(** X5. [loading] changes only when a list request settles, and then to
    false: no other event, typing, submitting, deleting or another request
    settling, touches it. *)
Theorem loading_changes_only_when_fetch_settles (e : Event) (s : State) :
  loading (step e s) = loading s \/
  exists k r,
    e = Settle k r /\ awaiting s !! k = Some InFetchTodos /\
    loading (step e s) = false.
Proof.
  destruct e as [| v | v | v | now date | id | k r]; simpl; auto.
  - left. unfold handleAddTodo. destruct (decide _); reflexivity.
  - destruct (awaiting s !! k) as [c|] eqn:Hk; [|auto].
    destruct c as [|tid l0|].
    + right. exists k, r. auto.
    + left. destruct r; reflexivity.
    + left. destruct r; reflexivity.
Qed.

(** X6. An accepted submission empties the form, and no request that
    settles brings the text back: after a create that fails the form is
    still as the user left it since. *)
Theorem form_cleared_and_not_restored (s : State) :
  (forall now date,
     trim (form_title (formData s)) <> "" ->
     formData (step (Submit now date) s) = mkForm "" "") /\
  (forall k r, formData (step (Settle k r) s) = formData s) /\
  (forall id, formData (step (ClickDelete id) s) = formData s).
Proof.
  split; [|split].
  - intros now date H. rewrite (handleAddTodo_accepted _ _ _ H). reflexivity.
  - intros k r. simpl. destruct (awaiting s !! k) as [c|]; [|reflexivity].
    destruct c, r; reflexivity.
  - reflexivity.
Qed.

(** The requests sent so far are sound, and stay so. *)
Lemma sound_requests_step (e : Event) (s : State) :
  Forall sound_request (sent s) -> Forall sound_request (sent (step e s)).
Proof.
  intros H.
  assert (forall r, sound_request r -> Forall sound_request (sent s ++ [r]))
    as Hadd.
  { intros r Hr. apply Forall_app. split; [exact H|]. repeat constructor. exact Hr. }
  destruct e as [| v | v | v | now date | id | k r]; simpl; trivial.
  - apply Hadd. exact I.
  - unfold handleAddTodo. destruct (decide _) as [|Hn]; [exact H|].
    apply Hadd. exact Hn.
  - apply Hadd. exact I.
  - destruct (awaiting s !! k) as [c|]; [|exact H].
    destruct c, r; simpl; trivial; apply Hadd; exact I.
Qed.

(** X7. Whatever the events, the store is never asked to create a task
    whose title is blank. *)
Theorem posts_never_blank (es : list Event) :
  Forall sound_request (sent (run es init)).
Proof.
  assert (forall s, Forall sound_request (sent s) ->
                    Forall sound_request (sent (run es s))) as H.
  { induction es as [|e es IH]; intros s Hs; [exact Hs|].
    rewrite run_cons. apply IH, sound_requests_step, Hs. }
  apply H. constructor.
Qed.

(** ** Further properties of the search *)

Section Search.

Lemma startsWith_empty (s : string) : startsWith s "" = true.
Proof. destruct s; reflexivity. Qed.

Lemma includes_empty (s : string) : includes s "" = true.
Proof. destruct s; simpl; rewrite ?startsWith_empty; reflexivity. Qed.


(** Dropping entries before filtering is dropping them after. *)
Lemma filterC_filter {A} (p : A -> Completion bool) (P : A -> Prop)
    `{!forall x, Decision (P x)} (l r : list A) :
  filterC p l = Normal r -> filterC p (filter P l) = Normal (filter P r).
Proof.
  revert r. induction l as [|x l IH]; intros r Hf.
  - injection Hf as <-. reflexivity.
  - rewrite filterC_cons in Hf.
    destruct (p x) as [b|e] eqn:Hx; [|discriminate Hf].
    destruct (filterC p l) as [r'|e]; [|discriminate Hf].
    injection Hf as <-. specialize (IH r' eq_refl).
    destruct (decide (P x)) as [HP|HP].
    + rewrite (filter_cons_True _ _ _ HP), filterC_cons, Hx, IH.
      destruct b; [rewrite (filter_cons_True _ _ _ HP)|]; reflexivity.
    + rewrite (filter_cons_False _ _ _ HP), IH.
      destruct b; [rewrite (filter_cons_False _ _ _ HP)|]; reflexivity.
Qed.

End Search.

(** X8. With the search box empty, the view is the whole collection as
    soon as every title is text: the descriptions are not read, so an item
    without a description is shown and nothing is thrown. *)
Theorem filteredTodos_empty_query (l : list Todo) :
  Forall (fun t => is_string (title t)) l ->
  filteredTodos l "" = Normal l.
Proof.
  unfold filteredTodos. induction 1 as [|t l [a Ha] _ IH]; [reflexivity|].
  rewrite filterC_cons, IH, matches_unfold, Ha.
  change (toLowerCase "") with "". rewrite includes_empty. reflexivity.
Qed.

Lemma filteredTodos_empty_query_witness :
  Forall (fun t => is_string (title t)) [Sample.a; Sample.bare] /\
  filteredTodos [Sample.a; Sample.bare] "" = Normal [Sample.a; Sample.bare].
Proof.
  assert (Forall (fun t => is_string (title t)) [Sample.a; Sample.bare]) as H.
  { repeat constructor; eexists; reflexivity. }
  split; [exact H | exact (filteredTodos_empty_query _ H)].
Defined.



(** X10. Whatever the alphabet and the lower-casing, narrowing the query
    never adds a card: when the lower-cased [q1] occurs in the lower-cased
    [q2] and the view for [q2] is computed, the view for [q1] is computed
    too and holds the view for [q2] as a sublist. *)
Theorem filteredTodos_narrowing (C : Type) (dec : EqDecision C)
    (toLowerCase : list C -> list C) (T : Type)
    (title description : T -> option (list C))
    (l r2 : list T) (q1 q2 : list C) :
  AnyText.includes (toLowerCase q2) (toLowerCase q1) = true ->
  AnyText.filteredTodos toLowerCase title description l q2 = Normal r2 ->
  exists r1,
    AnyText.filteredTodos toLowerCase title description l q1 = Normal r1 /\
    r2 `sublist_of` r1.
Proof.
  intros Hq. unfold AnyText.filteredTodos.
  revert r2. induction l as [|t l IH]; intros r2 Hr.
  - injection Hr as <-. exists []. split; [reflexivity | constructor].
  - rewrite filterC_cons in Hr.
    destruct (AnyText.matches _ _ _ q2 t) as [b2|e] eqn:Hm;
      [|discriminate Hr].
    destruct (filterC _ l) as [r2'|e]; [|discriminate Hr].
    injection Hr as <-.
    destruct (IH r2' eq_refl) as (r1' & Hr1 & Hsub).
    destruct (any_matches_wider _ _ _ q1 q2 t b2 Hq Hm) as (b1 & Hb1 & Himp).
    rewrite filterC_cons, Hb1, Hr1. eexists. split; [reflexivity|].
    destruct b2.
    + rewrite (Himp eq_refl). constructor. exact Hsub.
    + destruct b1; [constructor|]; exact Hsub.
Qed.

Lemma filteredTodos_narrowing_witness :
  AnyText.includes (toLowerCase_units (list_ascii_of_string "alp"))
                   (toLowerCase_units (list_ascii_of_string "AL")) = true /\
  exists r1, filteredTodos [Sample.a; Sample.b] "AL" = Normal r1 /\
             [Sample.a] `sublist_of` r1.
Proof.
  assert (AnyText.includes (toLowerCase_units (list_ascii_of_string "alp"))
                           (toLowerCase_units (list_ascii_of_string "AL"))
          = true) as Hq by reflexivity.
  split; [exact Hq|]. rewrite filteredTodos_units.
  exact (filteredTodos_narrowing _ _ toLowerCase_units _
           (fun t => text_of (title t)) (fun t => text_of (description t))
           [Sample.a; Sample.b] [Sample.a] _ _ Hq eq_refl).
Defined.

(** ** What the collection can hold *)

Section Provenance.

Lemma Forall_filter_keeps (P : Todo -> Prop) (R : Todo -> Prop)
    `{!forall t, Decision (R t)} (l : list Todo) :
  Forall P l -> Forall P (filter R l).
Proof.
  rewrite !Forall_forall. intros HP t Ht.
  apply list_elem_of_filter in Ht as [_ Ht]. auto.
Qed.

(** Tasks come into the collection from a submission or a list response
    and from nowhere else. *)
Lemma each_step (P : Todo -> Prop) (e : Event) (s : State) :
  brings P s e -> each P s -> each P (step e s).
Proof.
  intros Hb [Hc Hsnap].
  assert (forall k tid l0,
            InHandleAddTodo tid l0 ∈ delete k (awaiting s) -> Forall P l0)
    as Hdel.
  { intros k tid l0 Hin. apply (Hsnap tid l0).
    eapply elem_of_sublist; [exact Hin | apply sublist_delete]. }
  assert (forall c k tid l0,
            (forall t l, c <> InHandleAddTodo t l) ->
            InHandleAddTodo tid l0 ∈ delete k (awaiting s) ++ [c] ->
            Forall P l0) as Hdel'.
  { intros c k tid l0 Hc' Hin. apply elem_of_app in Hin as [Hin|Hin].
    - exact (Hdel k tid l0 Hin).
    - apply list_elem_of_singleton in Hin. symmetry in Hin.
      destruct (Hc' _ _ Hin). }
  assert (forall c tid l0,
            (forall t l, c <> InHandleAddTodo t l) ->
            InHandleAddTodo tid l0 ∈ awaiting s ++ [c] ->
            Forall P l0) as Hadd.
  { intros c tid l0 Hc' Hin. apply elem_of_app in Hin as [Hin|Hin].
    - exact (Hsnap tid l0 Hin).
    - apply list_elem_of_singleton in Hin. symmetry in Hin.
      destruct (Hc' _ _ Hin). }
  destruct e as [| v | v | v | now date | id | k r]; simpl;
    try (split; assumption).
  - split; [exact Hc|]. simpl. intros tid l0. apply Hadd. discriminate.
  - unfold handleAddTodo. destruct (decide _); [split; assumption|].
    split; simpl.
    + constructor; assumption.
    + intros tid l0 Hin. apply elem_of_app in Hin as [Hin|Hin]; [eauto|].
      apply list_elem_of_singleton in Hin. injection Hin as _ ->. exact Hc.
  - split; simpl.
    + apply Forall_filter_keeps, Hc.
    + intros tid l0. apply Hadd. discriminate.
  - destruct (awaiting s !! k) as [c|] eqn:Hk; [|split; assumption].
    destruct c as [|tid0 l1|], r as [d|]; simpl; split; simpl;
      try exact Hc; try exact (Hdel k);
      try (intros tid l0; apply Hdel'; discriminate).
    + apply Hb. exact Hk.
    + apply Forall_filter_keeps, (Hsnap tid0 l1).
      apply list_elem_of_lookup. eauto.
Qed.

Lemma each_mono (P P' : Todo -> Prop) (s : State) :
  (forall t, P t -> P' t) -> each P s -> each P' s.
Proof.
  intros H [Hc Hsnap]. split.
  - eapply Forall_impl; [exact Hc | exact H].
  - intros tid l0 Hin. eapply Forall_impl; [exact (Hsnap tid l0 Hin) | exact H].
Qed.

Lemma each_init (P : Todo -> Prop) : each P init.
Proof. split; [constructor|]. intros tid l0 H. simpl in H. inversion H. Qed.

Lemma newTodo_well_typed (f : FormData) (now date : Z) :
  well_typed (newTodo f now date).
Proof. split; eexists; reflexivity. Qed.

Lemma well_typed_run (es : list Event) (s : State) :
  lists_well_typed s es -> each well_typed s -> each well_typed (run es s).
Proof.
  revert s. induction es as [|e es IH]; intros s Hl Hs; [exact Hs|].
  destruct Hl as [He Hes]. rewrite run_cons. apply IH; [exact Hes|].
  apply each_step; [|exact Hs].
  destruct e as [| v | v | v | now date | id | k [d|]]; simpl; trivial.
  apply newTodo_well_typed.
Qed.

(** What the clock prints is a numeral. *)
Lemma pretty_N_go_numeral (x : N) (s : string) :
  numeral_chars s = true -> numeral_chars (pretty_N_go x s) = true.
Proof.
  revert s. induction (N.lt_wf_0 x) as [x _ IH]; intros s Hs.
  destruct (decide (0 < x)%N) as [Hx|Hx].
  - rewrite pretty_N_go_step by exact Hx. apply IH.
    + apply N.div_lt; [exact Hx | reflexivity].
    + simpl. rewrite Hs, andb_true_r.
      unfold pretty_N_char. repeat case_match; reflexivity.
  - assert (x = 0%N) as -> by lia. rewrite pretty_N_go_0. exact Hs.
Qed.

Lemma tempId_numeral (now : Z) : numeral_chars (tempId now) = true.
Proof.
  assert (forall p : positive, numeral_chars (pretty p) = true) as Hp.
  { intros p. unfold pretty, pretty_positive, pretty, pretty_N.
    destruct (decide _); [reflexivity|].
    apply pretty_N_go_numeral. reflexivity. }
  unfold tempId, toString, pretty, pretty_Z. destruct now as [|p|p].
  - reflexivity.
  - apply Hp.
  - change ("-" +:+ pretty p) with (String "-" (pretty p)).
    simpl. apply Hp.
Qed.

Lemma store_id_not_temp (id : JsPrim) (now : Z) :
  store_id id = true -> id <> JStr (tempId now).
Proof.
  intros H ->. simpl in H. rewrite tempId_numeral in H. discriminate H.
Qed.

(** A reading beyond the last one prints an id the collection has not. *)
Lemma later_reading_fresh (clock now : Z) (l : list Todo) :
  clock < now ->
  Forall (id_of_store_or_clock clock) l ->
  JStr (tempId now) ∉ ids l.
Proof.
  intros Hlt Hl. rewrite elem_of_ids. intros (t & Ht & Hid).
  rewrite Forall_forall in Hl. destruct (Hl t Ht) as [Hs|(n & Hn & Hs)].
  - exact (store_id_not_temp _ now Hs Hid).
  - rewrite Hs in Hid. injection Hid as Hid. apply tempId_inj in Hid. lia.
Qed.

Lemma well_behaved_run (es : list Event) (clock : Z) (s : State) :
  well_behaved clock s es ->
  each (id_of_store_or_clock clock) s ->
  distinct_ids s ->
  distinct_ids (run es s).
Proof.
  revert clock s. induction es as [|e es IH]; intros clock s Hw He Hd;
    [exact Hd|].
  rewrite run_cons.
  destruct e as [| v | v | v | now date | id | k [d|]]; simpl in Hw;
    try (apply (IH clock); [exact Hw | apply each_step; [exact I | exact He]
                           | apply distinct_ids_step; [exact I | exact Hd]]).
  - destruct Hw as [Hlt Hw]. apply (IH now); [exact Hw | |].
    + apply each_step.
      * right. exists now. split; [lia | reflexivity].
      * apply (each_mono (id_of_store_or_clock clock)); [|exact He].
        intros t [Hs|(n & Hn & Hs)]; [left; exact Hs|].
        right. exists n. split; [lia | exact Hs].
    + apply distinct_ids_step; [|exact Hd].
      apply (later_reading_fresh clock); [exact Hlt | apply He].
  - destruct Hw as [Hr Hw]. apply (IH clock); [exact Hw | |].
    + apply each_step; [|exact He]. intros Hk.
      destruct (Hr Hk) as [_ Hs]. unfold ids in Hs.
      rewrite Forall_fmap in Hs.
      eapply Forall_impl; [exact Hs|]. intros t Ht. left. exact Ht.
    + apply distinct_ids_step; [|exact Hd]. intros Hk. apply (Hr Hk).
Qed.

End Provenance.

(** ** Further properties of what is rendered *)

Lemma render_unfold (s : State) (v : View) :
  render s = Normal v ->
  exists shown,
    filteredTodos (todos s) (searchQuery s) = Normal shown /\
    header_count v = length (todos s) /\
    list_section v =
      (if loading s then Skeleton
       else if bool_decide (0 < length shown)%nat then Cards shown
       else EmptyState).
Proof.
  unfold render.
  destruct (filteredTodos (todos s) (searchQuery s)) as [shown|e];
    [|discriminate].
  intros [= <-]. exists shown. auto.
Qed.

(** X11. When the page renders: the header counts the whole collection;
    the skeleton is shown exactly while loading; cards are shown only when
    not loading, they are the tasks the search selects, in order, at least
    one and never more than the header counts; the empty state is shown
    only when not loading and the search selects no task. *)
Theorem render_list_section (s : State) (v : View) :
  render s = Normal v ->
  header_count v = length (todos s) /\
  match list_section v with
  | Skeleton => loading s = true
  | Cards shown =>
      loading s = false /\ shown <> [] /\
      shown = filter (selected (searchQuery s)) (todos s) /\
      (length shown <= header_count v)%nat
  | EmptyState =>
      loading s = false /\
      forall t, t ∈ todos s -> ~ selected (searchQuery s) t
  end.
Proof.
  intros H. apply render_unfold in H as (shown & Hf & Hc & ->).
  split; [exact Hc|]. apply filteredTodos_sound in Hf.
  destruct (loading s); [reflexivity|].
  destruct (bool_decide (0 < length shown)%nat) eqn:Hlen.
  - apply bool_decide_eq_true in Hlen. split; [reflexivity|]. split; [|split].
    + intros ->. simpl in Hlen. lia.
    + exact Hf.
    + rewrite Hc, Hf. apply length_filter.
  - apply bool_decide_eq_false in Hlen. split; [reflexivity|].
    assert (shown = []) as -> by (destruct shown; [reflexivity | simpl in Hlen; lia]).
    intros t Ht Hsel. symmetry in Hf.
    exact (filter_nil_not_elem_of _ _ _ Hf Hsel Ht).
Qed.

Lemma render_list_section_witness :
  exists v,
    render (step (ChangeSearch "BET") Sample.ready) = Normal v /\
    header_count v = 2%nat /\ list_section v = Cards [Sample.b].
Proof.
  eexists. split; [reflexivity|].
  split; [|reflexivity].
  exact (proj1 (render_list_section
                  (step (ChangeSearch "BET") Sample.ready) _ eq_refl)).
Defined.

(** X12. When cards are shown and delete is clicked, the next render shows
    the same cards without those that carry the id, in order, or the empty
    state when none is left; the header counts fewer tasks when the id was
    on a card. *)
Theorem render_after_delete (s : State) (v : View) (shown : list Todo)
    (id : JsPrim) :
  render s = Normal v ->
  list_section v = Cards shown ->
  exists v',
    render (step (ClickDelete id) s) = Normal v' /\
    list_section v' =
      match filter (other_id id) shown with
      | [] => EmptyState
      | t :: l => Cards (t :: l)
      end /\
    (id ∈ ids shown -> (header_count v' < header_count v)%nat).
Proof.
  intros H Hcards. apply render_unfold in H as (sh & Hf & Hc & Hsec).
  rewrite Hsec in Hcards.
  destruct (loading s) eqn:Hl; [discriminate Hcards|].
  destruct (bool_decide (0 < length sh)%nat); [|discriminate Hcards].
  injection Hcards as ->.
  pose proof (filterC_filter _ (other_id id) _ _ Hf) as Hf'.
  eexists. split; [|split].
  - unfold render. simpl. unfold filteredTodos in Hf' |- *. rewrite Hf'.
    reflexivity.
  - simpl. rewrite Hl. destruct (filter (other_id id) shown); reflexivity.
  - simpl. intros Hin. rewrite Hc.
    apply elem_of_ids in Hin as (t & Ht & Hid).
    apply (length_filter_lt _ _ t).
    + apply filteredTodos_sound in Hf. rewrite Hf in Ht.
      apply list_elem_of_filter in Ht. apply Ht.
    + unfold other_id. intros Hne. exact (Hne Hid).
Qed.

Lemma render_after_delete_witness :
  exists v v',
    render Sample.ready = Normal v /\
    list_section v = Cards [Sample.a; Sample.b] /\
    render (step (ClickDelete (JStr "a")) Sample.ready) = Normal v' /\
    list_section v' = Cards [Sample.b].
Proof.
  destruct (render_after_delete Sample.ready _ [Sample.a; Sample.b]
              (JStr "a") eq_refl eq_refl) as (v' & H1 & H2 & _).
  eexists. exists v'. split; [reflexivity|]. split; [reflexivity|].
  split; [exact H1 | exact H2].
Defined.

(** Tasks with string ids that differ get keys that differ. *)
Lemma keys_distinct (l : list Todo) :
  Forall (fun t => is_string (_id t)) l ->
  NoDup (ids l) ->
  NoDup (keys l) /\ Forall is_Some (keys l).
Proof.
  induction 1 as [|t l [a Ha] Hl IH]; intros Hnd.
  - split; constructor.
  - change (ids (t :: l)) with (_id t :: ids l) in Hnd.
    apply NoDup_cons in Hnd as [Hnot Hnd]. destruct (IH Hnd) as [IH1 IH2].
    change (keys (t :: l)) with (react_key (_id t) :: keys l).
    rewrite Ha. simpl. split.
    + constructor; [|exact IH1]. intros Hin. apply Hnot.
      unfold keys in Hin. apply list_elem_of_fmap in Hin as (t' & Hk & Ht').
      rewrite Forall_forall in Hl. destruct (Hl t' Ht') as [a' Ha'].
      rewrite Ha' in Hk. simpl in Hk. injection Hk as ->.
      apply elem_of_ids. exists t'. split; [exact Ht' | congruence].
    + constructor; [eexists; reflexivity | exact IH2].
Qed.

Lemma each_run (P : Todo -> Prop) (es : list Event) (s : State) :
  (forall f now date, P (newTodo f now date)) ->
  lists_each P s es -> each P s -> each P (run es s).
Proof.
  intros Hnew. revert s.
  induction es as [|e es IH]; intros s Hl Hs; [exact Hs|].
  destruct Hl as [He Hes]. rewrite run_cons. apply IH; [exact Hes|].
  apply each_step; [|exact Hs].
  destruct e as [| v | v | v | now date | id | k [d|]]; simpl; trivial.
Qed.

(** X13. Along every sequence of events in which each list response
    carries string ids only and none twice, and no form is submitted at a
    clock reading whose decimal string is already an id of the collection,
    every card shown has a key, the string of its id, and no two cards
    share a key. *)
Theorem render_keys_distinct (es : list Event) (v : View)
    (shown : list Todo) :
  admissible_run init es ->
  lists_each (fun t => is_string (_id t)) init es ->
  render (run es init) = Normal v ->
  list_section v = Cards shown ->
  NoDup (keys shown) /\ Forall is_Some (keys shown).
Proof.
  intros Hadm Hstr H Hcards. apply render_unfold in H as (sh & Hf & _ & Hsec).
  rewrite Hsec in Hcards.
  destruct (loading (run es init)); [discriminate Hcards|].
  destruct (bool_decide _); [|discriminate Hcards].
  injection Hcards as ->. apply filteredTodos_sound in Hf. rewrite Hf.
  apply keys_distinct.
  - apply Forall_filter_keeps.
    apply (each_run _ es init); [|exact Hstr|apply each_init].
    intros f now date. eexists. reflexivity.
  - apply NoDup_ids_filter.
    apply (distinct_ids_run es init Hadm distinct_ids_init).
Qed.

Lemma render_keys_distinct_witness :
  let es := [Mount; Settle 0 (Fulfilled [Sample.a; Sample.b])]
            ++ Sample.create_XY in
  admissible_run init es /\
  lists_each (fun t => is_string (_id t)) init es /\
  NoDup (keys [Sample.tmp; Sample.a; Sample.b]).
Proof.
  cbv zeta.
  assert (admissible_run init
            ([Mount; Settle 0 (Fulfilled [Sample.a; Sample.b])]
             ++ Sample.create_XY)) as H.
  { simpl. repeat split.
    - intros _. apply (bool_decide_unpack _). vm_compute. exact I.
    - apply (bool_decide_unpack _). vm_compute. exact I. }
  assert (lists_each (fun t => is_string (_id t)) init
            ([Mount; Settle 0 (Fulfilled [Sample.a; Sample.b])]
             ++ Sample.create_XY)) as Hs.
  { simpl. repeat split; try exact I.
    intros _. repeat constructor; eexists; reflexivity. }
  split; [exact H|]. split; [exact Hs|].
  exact (proj1 (render_keys_distinct _ _ [Sample.tmp; Sample.a; Sample.b]
                  H Hs eq_refl eq_refl)).
Defined.

(** X14. As long as the store lists only tasks with text in [title] and
    [description], every task of the collection has text in both, whatever
    the events, and the page renders without an exception. *)
Theorem render_never_throws (es : list Event) :
  lists_well_typed init es ->
  Forall well_typed (todos (run es init)) /\
  exists v, render (run es init) = Normal v.
Proof.
  intros H.
  destruct (well_typed_run es init H (each_init _)) as [Hc _].
  split; [exact Hc|]. unfold render.
  rewrite (filteredTodos_well_typed _ _ Hc). eexists. reflexivity.
Qed.

Lemma render_never_throws_witness :
  let es := [Mount; Settle 0 (Fulfilled [Sample.a; Sample.b])]
            ++ Sample.create_XY ++ [ChangeSearch "x"; Settle 0 Rejected] in
  lists_well_typed init es /\ exists v, render (run es init) = Normal v.
Proof.
  cbv zeta.
  assert (lists_well_typed init
            ([Mount; Settle 0 (Fulfilled [Sample.a; Sample.b])]
             ++ Sample.create_XY ++ [ChangeSearch "x"; Settle 0 Rejected]))
    as H.
  { simpl. repeat split; try exact I.
    intros _. repeat constructor; eexists; reflexivity. }
  split; [exact H | exact (proj2 (render_never_throws _ H))].
Defined.

(** X15. If the clock reads more at each submission than at the one
    before, and every list response carries no id twice and no id that is
    a decimal numeral, then the collection never holds an id twice,
    whatever else happens and in whatever order the requests settle. *)
Theorem ids_distinct_with_monotone_clock (es : list Event) (clock : Z) :
  well_behaved clock init es ->
  NoDup (ids (todos (run es init))).
Proof.
  intros H.
  apply (well_behaved_run es clock init H (each_init _) distinct_ids_init).
Qed.

Lemma ids_distinct_with_monotone_clock_witness :
  let es := [Mount; Settle 0 (Fulfilled [Sample.a; Sample.b]);
             ChangeTitle "X"; Submit 10 10; ChangeTitle "Y"; Submit 11 11;
             Settle 1 Rejected; ClickDelete (JStr "a")] in
  well_behaved 0 init es /\ NoDup (ids (todos (run es init))).
Proof.
  cbv zeta.
  assert (well_behaved 0 init
            [Mount; Settle 0 (Fulfilled [Sample.a; Sample.b]);
             ChangeTitle "X"; Submit 10 10; ChangeTitle "Y"; Submit 11 11;
             Settle 1 Rejected; ClickDelete (JStr "a")]) as H.
  { simpl. repeat split; try lia.
    - apply (bool_decide_unpack _). vm_compute. exact I.
    - repeat constructor. }
  split; [exact H | exact (ids_distinct_with_monotone_clock _ _ H)].
Defined.

(** ** Notifications and create requests *)

Section Notifications.

Lemma count_app {A} (f : A -> bool) (l1 l2 : list A) :
  count f (l1 ++ l2) = (count f l1 + count f l2)%nat.
Proof. induction l1 as [|x l1 IH]; simpl; [reflexivity|]. rewrite IH. lia. Qed.

Lemma count_delete {A} (f : A -> bool) (l : list A) (k : nat) (x : A) :
  l !! k = Some x ->
  count f l = ((if f x then 1 else 0) + count f (delete k l))%nat.
Proof.
  revert k. induction l as [|y l IH]; intros [|k] H; simpl in *;
    try discriminate H.
  - injection H as ->. reflexivity.
  - rewrite (IH k H). lia.
Qed.

(** The notifications and the creates in flight never outnumber the create
    requests sent. *)
Lemma alerts_step (e : Event) (s : State) :
  (length (alerts s) + count is_create (awaiting s)
   <= count is_post (sent s))%nat ->
  (length (alerts (step e s)) + count is_create (awaiting (step e s))
   <= count is_post (sent (step e s)))%nat.
Proof.
  intros H.
  destruct e as [| v | v | v | now date | id | k r]; simpl; trivial.
  - rewrite !count_app. simpl. lia.
  - unfold handleAddTodo. destruct (decide _); [exact H|].
    simpl. rewrite !count_app. simpl. lia.
  - rewrite !count_app. simpl. lia.
  - destruct (awaiting s !! k) as [c|] eqn:Hk; [|exact H].
    rewrite (count_delete is_create _ _ _ Hk) in H.
    destruct c, r; simpl in *; rewrite ?count_app, ?length_app; simpl; lia.
Qed.

End Notifications.

(** X16. Whatever the events, the failure notifications raised so far,
    together with the creates still in flight, never outnumber the create
    requests sent: the user is told of a failure at most once per create. *)
Theorem alerts_at_most_one_per_create (es : list Event) :
  let s := run es init in
  (length (alerts s) + count is_create (awaiting s)
   <= count is_post (sent s))%nat.
Proof.
  cbv zeta.
  assert (forall s,
            (length (alerts s) + count is_create (awaiting s)
             <= count is_post (sent s))%nat ->
            (length (alerts (run es s)) + count is_create (awaiting (run es s))
             <= count is_post (sent (run es s)))%nat) as H.
  { induction es as [|e es IH]; intros s Hs; [exact Hs|].
    rewrite run_cons. apply IH, alerts_step, Hs. }
  apply H. simpl. lia.
Qed.
